(** * Power Meter Logger: the TM1621B bus tap and its decoder

    A shallow embedding of [power-meter-logger.ino]: the two interrupt
    handlers that assemble captured words ([clock_isr], [select_isr]), the
    packet validator [process_data_buffer], and the four accessors
    [get_voltage], [get_current], [get_power] and [get_energy].

    Conventions.
    - A [uint32_t] or [uint8_t] is a [Z]; every wrap-around of the source is
      written out with [mod].
    - [read_buffer] and [data_buffer] are lists, read with [nth] and written
      with the list insert of stdpp.
    - A [float] result is the exact rational the source's expression
      denotes (the C value is its rounding to binary32); [pow(10, k)] for
      [k] in 0..3 is the integer [10 ^ k].
    - A call of [process_data_buffer] reads the ring as it stands: no
      interrupt fires during a scan.  The interrupt handlers are modelled
      on their own, driven by the pin events.

    The sketch exists in two copies that differ in names and comments only
    ([data_digit_map] for [data_digit_lut_1], [k] for [data_idx], ...);
    the names below are those of the commented copy. *)

From Stdlib Require Import ZArith QArith Lia Bool.
From stdpp Require Import base list.

Local Open Scope Z_scope.

(** ** Globals *)

Definition BUFFER_SIZE : nat := 32.

(** [data_digit_lut_1] and [data_digit_lut_2]: row 0 holds the digits, row 1
    the segment patterns. *)
Definition lut_digits : list Z := [0; 1; 2; 3; 4; 5; 6; 7; 8; 9].
Definition data_digit_lut_1 : list Z * list Z :=
  (lut_digits, [117; 5; 83; 23; 39; 54; 118; 21; 119; 55]).
Definition data_digit_lut_2 : list Z * list Z :=
  (lut_digits, [125; 5; 94; 79; 39; 107; 123; 69; 127; 111]).

(** The zero-initialised global [data_buffer]. *)
Definition data_buffer_init : list Z := repeat 0 16.

(** Unsigned wrap-around and the conversion of a [uint32_t] to [int32_t]. *)
Definition wrap8 (z : Z) : Z := z mod 2 ^ 8.
Definition wrap32 (z : Z) : Z := z mod 2 ^ 32.
Definition to_int32 (z : Z) : Z := if z <? 2 ^ 31 then z else z - 2 ^ 32.

(** ** Packet fields of a captured word *)

Definition packet_cmd (w : Z) : Z := Z.shiftr (Z.land w 0x0001C000) 14.
Definition packet_addr (w : Z) : Z := Z.shiftr (Z.land w 0x00003F00) 8.

(** ** The packet validator *)

Module Scan.

(** The locals of [process_data_buffer] together with the global
    [data_buffer]; [writes] is a ghost trace of the stores into
    [data_buffer], oldest first, as pairs (index, value). *)
Record state := mk {
  expected_addr : Z;
  data_start : bool;
  data_idx : Z;
  success : bool;
  data_buffer : list Z;
  writes : list (Z * Z)
}.

Definition init (db : list Z) : state :=
  {| expected_addr := 0; data_start := false; data_idx := 0;
     success := false; data_buffer := db; writes := [] |}.

Definition set_expected_addr (e : Z) (s : state) : state :=
  mk e (data_start s) (data_idx s) (success s) (data_buffer s) (writes s).
Definition set_data_start (b : bool) (s : state) : state :=
  mk (expected_addr s) b (data_idx s) (success s) (data_buffer s) (writes s).
Definition set_data_idx (k : Z) (s : state) : state :=
  mk (expected_addr s) (data_start s) k (success s) (data_buffer s) (writes s).
Definition set_success (b : bool) (s : state) : state :=
  mk (expected_addr s) (data_start s) (data_idx s) b (data_buffer s) (writes s).

(** [data_buffer[k] = v].  A store with [k] outside the array is undefined
    in C++; here the list is left as it is and the trace records [k]. *)
Definition store (k v : Z) (s : state) : state :=
  mk (expected_addr s) (data_start s) (data_idx s) (success s)
     (<[Z.to_nat k := v]> (data_buffer s)) (writes s ++ [(k, v)]).

(** One iteration of the loop body either falls through to [i++] or leaves
    the loop with [break]. *)
Inductive flow := Continue (s : state) | Break (s : state).

(** The value stored for an accepted word. *)
Definition stored (addr w : Z) : Z :=
  if addr <=? 14 then Z.land w 0x00000077 else Z.land w 0x000000FF.

(** The body of the [for] loop, on the word [w = read_buffer[i]]. *)
Definition body (w : Z) (s : state) : flow :=
  if packet_cmd w =? 5 then
    let addr := packet_addr w in
    let s1 := if addr =? 0 then set_data_start true s else s in
    if data_start s1 then
      if negb (addr =? expected_addr s1) then Break (set_success false s1)
      else
        let s2 := set_expected_addr (wrap32 (expected_addr s1 + 2)) s1 in
        let s3 := store (data_idx s2) (stored addr w) s2 in
        let s4 := set_data_idx (wrap8 (data_idx s3 + 1)) s3 in
        if addr =? 30 then Break (set_success true s4) else Continue s4
    else Continue s1
  else Continue s.

(** The state of the loop: still running, or left by [break] at slot [i]. *)
Inductive run := Running (s : state) | Stopped (s : state) (i : nat).

(** [slots rb n i s]: [n] iterations of the loop from index [i]. *)
Fixpoint slots (rb : list Z) (n i : nat) (s : state) : run :=
  match n with
  | O => Running s
  | S k =>
      match body (nth i rb 0) s with
      | Break s' => Stopped s' i
      | Continue s' => slots rb k (S i) s'
      end
  end.

Definition final (r : run) : state :=
  match r with Running s => s | Stopped s _ => s end.

(** The loop state on reaching slot [m], from the function's entry. *)
Definition upto (rb db : list Z) (m : nat) : run := slots rb m 0 (init db).

(** The whole loop. *)
Definition all (rb db : list Z) : run := upto rb db BUFFER_SIZE.

(** The last slot the scan examined: where it broke, or the last slot of the
    buffer. *)
Definition stop_index (rb db : list Z) : nat :=
  match all rb db with
  | Running _ => BUFFER_SIZE - 1
  | Stopped _ i => i
  end.

Definition trace (rb db : list Z) : list (Z * Z) := writes (final (all rb db)).

(** The state after a word is accepted. *)
Definition accepted (w : Z) (s : state) : state :=
  mk (wrap32 (expected_addr s + 2)) true (wrap8 (data_idx s + 1)) (success s)
     (<[Z.to_nat (data_idx s) := stored (packet_addr w) w]> (data_buffer s))
     (writes s ++ [(data_idx s, stored (packet_addr w) w)]).

(** The loop as a pass over the list of words, without the slot index. *)
Fixpoint over (ws : list Z) (s : state) : flow :=
  match ws with
  | [] => Continue s
  | w :: ws' =>
      match body w s with
      | Break s' => Break s'
      | Continue s' => over ws' s'
      end
  end.

Definition flow_state (f : flow) : state :=
  match f with Continue s => s | Break s => s end.

(** While the loop runs: the expected address is twice the write index, at
    most fifteen stores were made, and the k-th store went to slot k. *)
Definition counted (s : state) : Prop :=
  expected_addr s = 2 * data_idx s /\
  0 <= data_idx s <= 15 /\
  success s = false /\
  map fst (writes s) = map Z.of_nat (seq 0 (Z.to_nat (data_idx s))).

(** When the loop is over: [n] stores, to slots 0 .. n-1, and success
    exactly when all sixteen were made. *)
Definition settled (s : state) : Prop :=
  exists n : nat,
    (n <= 16)%nat /\
    map fst (writes s) = map Z.of_nat (seq 0 n) /\
    (success s = true <-> n = 16%nat).

End Scan.

(** [process_data_buffer]: the returned flag and the [data_buffer] it
    leaves. *)
Definition process_data_buffer (rb db : list Z) : bool * list Z :=
  let s := Scan.final (Scan.all rb db) in
  (Scan.success s, Scan.data_buffer s).

(** ** The digit decoder *)

(** The inner [for j] loop: compare [v] with every pattern of the table and
    add the digit, scaled by [pow(10, k)], into the [uint32_t] accumulator. *)
Definition lut_step (lut : list Z * list Z) (v k : Z) (acc : Z) (j : nat) : Z :=
  if v =? nth j (snd lut) 0 then wrap32 (acc + nth j (fst lut) 0 * 10 ^ k)
  else acc.

Definition lut_loop (lut : list Z * list Z) (v k acc : Z) : Z :=
  fold_left (lut_step lut v k) (seq 0 10) acc.

(** The bodies of the outer [for i] loops of the four accessors, and the
    loops themselves, each from an accumulator of 0. *)
Definition voltage_body (db : list Z) (voltage : Z) (i : nat) : Z :=
  lut_loop data_digit_lut_1 (nth i db 0) (3 - Z.of_nat i) voltage.

Definition current_body (db : list Z) (current : Z) (i : nat) : Z :=
  lut_loop data_digit_lut_1 (nth i db 0) (7 - Z.of_nat i) current.

Definition power_body (db : list Z) (power : Z) (i : nat) : Z :=
  lut_loop data_digit_lut_2 (Z.shiftr (nth i db 0) 1) (11 - Z.of_nat i) power.

Definition energy_body (db : list Z) (energy : Z) (i : nat) : Z :=
  lut_loop data_digit_lut_2 (Z.shiftr (nth i db 0) 1) (15 - Z.of_nat i) energy.

Definition voltage_loop (db : list Z) : Z :=
  fold_left (voltage_body db) (seq 0 4) 0.
Definition current_loop (db : list Z) : Z :=
  fold_left (current_body db) (seq 4 4) 0.
Definition power_loop (db : list Z) : Z :=
  fold_left (power_body db) (seq 8 4) 0.
Definition energy_loop (db : list Z) : Z :=
  fold_left (energy_body db) (seq 12 4) 0.

(** What each accessor computes once the extraction has succeeded. *)
Definition voltage_of (db : list Z) : Q := (inject_Z (voltage_loop db) / 100)%Q.
Definition current_of (db : list Z) : Q := (inject_Z (current_loop db) / 100)%Q.

Definition power_of (db : list Z) : Q :=
  let power := power_loop db in
  if negb (Z.land (nth 10 db 0) 0x01 =? 0) then (inject_Z power / 10)%Q
  else inject_Z power.

Definition energy_of (db : list Z) : Z :=
  let energy := energy_loop db in
  let energy :=
    if negb (Z.land (nth 15 db 0) 0x01 =? 0) then wrap32 (energy * 1000)
    else energy in
  to_int32 energy.

(** The accessors: the value returned and the [data_buffer] left behind. *)
Definition get_voltage (rb db : list Z) : Q * list Z :=
  let '(ok, db') := process_data_buffer rb db in
  if negb ok then ((-1)%Q, db') else (voltage_of db', db').

Definition get_current (rb db : list Z) : Q * list Z :=
  let '(ok, db') := process_data_buffer rb db in
  if negb ok then ((-1)%Q, db') else (current_of db', db').

Definition get_power (rb db : list Z) : Q * list Z :=
  let '(ok, db') := process_data_buffer rb db in
  if negb ok then ((-1)%Q, db') else (power_of db', db').

Definition get_energy (rb db : list Z) : Z * list Z :=
  let '(ok, db') := process_data_buffer rb db in
  if negb ok then (-1, db') else (energy_of db', db').

(** One pass of [loop()] over an unchanging [read_buffer]: the four values
    printed. *)
Definition report (rb db : list Z) : Q * Q * Q * Z :=
  let '(v, db1) := get_voltage rb db in
  let '(c, db2) := get_current rb db1 in
  let '(p, db3) := get_power rb db2 in
  let '(e, _) := get_energy rb db3 in
  (v, c, p, e).

(** ** The bit sampler *)

Module Sampler.

(** The globals the two handlers share, and whether [clock_isr] is attached
    to the clock pin. *)
Record state := mk {
  read_buffer : list Z;
  buffer_idx : Z;
  read_digit : Z;
  clk_attached : bool
}.

(** [a << n] on [int]: undefined for a negative count, a count of 32 or
    more, or a result that does not fit. *)
Definition shl_int (a n : Z) : option Z :=
  if (0 <=? n) && (n <? 32) && (Z.shiftl a n <? 2 ^ 31)
  then Some (Z.shiftl a n) else None.

(** [clock_isr], with the level [digitalRead(DATA_PIN)] returns. *)
Definition clock_isr (data : bool) (s : state) : option state :=
  match shl_int (Z.b2z data) (16 - read_digit s) with
  | None => None
  | Some bit =>
      let k := Z.to_nat (buffer_idx s) in
      Some (mk (<[k := Z.lor (nth k (read_buffer s) 0) bit]> (read_buffer s))
               (buffer_idx s)
               (wrap8 (read_digit s + 1))
               (clk_attached s))
  end.

(** [select_isr], with the level [digitalRead(CS_PIN)] returns. *)
Definition select_isr (cs : bool) (s : state) : state :=
  if negb cs then
    mk (<[Z.to_nat (buffer_idx s) := 0]> (read_buffer s)) (buffer_idx s) 0 true
  else
    let idx := wrap8 (buffer_idx s + 1) in
    mk (read_buffer s)
       (if Z.of_nat BUFFER_SIZE <=? idx then 0 else idx)
       (read_digit s) false.

(** What the pins do: a change of chip-select to a level, or a rising clock
    edge with the data line at a level. *)
Inductive event := CS (level : bool) | CLK (data : bool).

Definition step (s : state) (e : event) : option state :=
  match e with
  | CS level => Some (select_isr level s)
  | CLK data => if clk_attached s then clock_isr data s else Some s
  end.

Fixpoint steps (s : state) (es : list event) : option state :=
  match es with
  | [] => Some s
  | e :: es' =>
      match step s e with
      | None => None
      | Some s' => steps s' es'
      end
  end.

(** Chip-select goes low and the clock rises once per level of [bs]. *)
Definition asserted (bs : list bool) : list event := CS false :: map CLK bs.

(** The word under the ring cursor. *)
Definition current_word (s : state) : Z :=
  nth (Z.to_nat (buffer_idx s)) (read_buffer s) 0.

(** The OR of the levels, the one sampled at position [i] shifted left by
    [16 - i]. *)
Fixpoint or_shifted (i : Z) (bs : list bool) : Z :=
  match bs with
  | [] => 0
  | b :: bs' => Z.lor (Z.shiftl (Z.b2z b) (16 - i)) (or_shifted (i + 1) bs')
  end.

Definition boot : state := mk (repeat 0 BUFFER_SIZE) 0 0 false.

End Sampler.

(** ** Vocabulary of the statements *)

(** The command-5 words of the buffer, in slot order. *)
Definition write_words (rb : list Z) : list Z :=
  filter (fun w => packet_cmd w = 5) rb.

(** The addresses of one transmission sequence: 0, 2, ..., 30. *)
Definition sequence_addrs : list Z :=
  map (fun k => 2 * Z.of_nat k) (seq 0 16).

(** What makes a table a digit table: the digits 0 .. 9 in order against
    ten distinct patterns. *)
Definition lut_ok (lut : list Z * list Z) : Prop :=
  fst lut = lut_digits /\ length (snd lut) = 10%nat /\ NoDup (snd lut).

(** The digit the inner loop adds for pattern [v]: what it leaves in a zero
    accumulator at exponent 0. *)
Definition lut_value (lut : list Z * list Z) (v : Z) : Z := lut_loop lut v 0 0.

(** Four digit positions, most significant first. *)
Definition four_digits (lut : list Z * list Z) (v0 v1 v2 v3 : Z) : Z :=
  lut_value lut v0 * 1000 + lut_value lut v1 * 100
  + lut_value lut v2 * 10 + lut_value lut v3.


(** ** Example captures *)

(** A command-5 word with the given address and data byte. *)
Definition packet (addr data : Z) : Z :=
  Z.lor (Z.shiftl 5 14) (Z.lor (Z.shiftl addr 8) data).

(** The sixteen packets of one transmission, addresses 0, 2, ..., 30, with
    the given data bytes. *)
Definition transmission (data : list Z) : list Z :=
  map (fun '(k, d) => packet (2 * Z.of_nat k) d) (combine (seq 0 16) data).

(** Digits 0123 in the voltage and current positions, 045.6 in the power
    positions (decimal-point flag set) and 0789 in the energy positions. *)
Definition digits_a : list Z :=
  [117; 5; 83; 23; 117; 5; 83; 23; 250; 78; 215; 246; 250; 138; 254; 222].

(** A ring holding one transmission and sixteen words of another command. *)
Definition capture_a : list Z := transmission digits_a ++ repeat 0 16.

(** The same ring after a stray address-0 packet was captured first. *)
Definition capture_stale : list Z :=
  packet 0 0 :: transmission digits_a ++ repeat 0 15.

(** A ring in which address 6 follows address 2. *)
Definition capture_gap : list Z :=
  [packet 0 117; packet 2 5; packet 6 83; packet 8 23] ++ repeat 0 28.

(** A ring with command-5 words but none at address 0. *)
Definition capture_headless : list Z :=
  [packet 2 5; packet 4 83; packet 6 23] ++ repeat 0 29.

(** Digits 1205 in the voltage positions, otherwise as [digits_a]. *)
Definition digits_b : list Z :=
  [5; 83; 117; 54; 117; 5; 83; 23; 250; 78; 215; 246; 250; 138; 254; 222].



(** Pattern 0 (no segment lit) in the first voltage position and in the
    last energy position. *)
Definition capture_blank : list Z :=
  transmission (<[0%nat := 0]> (<[15%nat := 0]> digits_a)) ++ repeat 0 16.

(** ** Vocabulary of the further properties *)

(** The masks of the validator over sixteen words or data bytes: 0x77 on
    the first eight, 0xFF on the last eight. *)
Definition masked (ws : list Z) : list Z :=
  map (fun w => Z.land w 0x77) (take 8 ws)
  ++ map (fun w => Z.land w 0xFF) (drop 8 ws).

(** A scan state with its data buffer left out, and the same for the two
    ways an iteration and a loop can end. *)
Definition forget (s : Scan.state) : Scan.state :=
  Scan.mk (Scan.expected_addr s) (Scan.data_start s) (Scan.data_idx s)
          (Scan.success s) [] (Scan.writes s).

Definition flow_map (f : Scan.state -> Scan.state) (r : Scan.flow)
  : Scan.flow :=
  match r with
  | Scan.Continue s => Scan.Continue (f s)
  | Scan.Break s => Scan.Break (f s)
  end.

Definition run_map (f : Scan.state -> Scan.state) (r : Scan.run)
  : Scan.run :=
  match r with
  | Scan.Running s => Scan.Running (f s)
  | Scan.Stopped s i => Scan.Stopped (f s) i
  end.

(** The data buffer of a scan state, seen from the buffer [db0] the scan
    started with: the values stored so far, then the slots of [db0] not
    stored to. *)
Definition framed (db0 : list Z) (s : Scan.state) : Prop :=
  Scan.data_buffer s
  = map snd (Scan.writes s) ++ drop (length (Scan.writes s)) db0.



(** What the handlers maintain: a ring of 32 words of 17 bits, the cursor
    inside it, and a bit position that is not negative. *)
Definition ring_ok (s : Sampler.state) : Prop :=
  length (Sampler.read_buffer s) = BUFFER_SIZE /\
  0 <= Sampler.buffer_idx s < Z.of_nat BUFFER_SIZE /\
  0 <= Sampler.read_digit s /\
  Forall (fun w => 0 <= w < 2 ^ 17) (Sampler.read_buffer s).

(** One bus transaction: chip-select low, the clock edges, chip-select
    high; and several in a row. *)
Definition transaction (bs : list bool) : list Sampler.event :=
  Sampler.asserted bs ++ [Sampler.CS true].

Definition transactions (bss : list (list bool)) : list Sampler.event :=
  flat_map transaction bss.

(** The seventeen bits of a word, bit 16 first. *)
Definition msb_first (w : Z) : list bool :=
  map (fun i => Z.testbit w (16 - Z.of_nat i)) (seq 0 17).

(** The cursor after [n] more transactions. *)
Definition cursor_after (c : Z) (n : nat) : Z :=
  (c + Z.of_nat n) mod Z.of_nat BUFFER_SIZE.




(** The bus events of one transmission with the given data bytes. *)
Definition sent (data : list Z) : list Sampler.event :=
  transactions (map msb_first (transmission data)).

(** * Properties of the packet validator *)

Module ScanFacts.
Import Scan.

#[local] Arguments body : simpl never.

(** Unfold one iteration of the loop, leaving [body] folded. *)
Ltac unroll := cbn [slots over Nat.add nth length final flow_state app].

(** ** Splitting and comparing runs of the loop *)

Lemma slots_app rb a b i s :
  slots rb (a + b) i s =
  match slots rb a i s with
  | Running s' => slots rb b (i + a) s'
  | Stopped s' j => Stopped s' j
  end.
Proof.
  revert i s; induction a as [|a IH]; intros i s; unroll.
  - by rewrite Nat.add_0_r.
  - destruct (body (nth i rb 0) s); [|done].
    rewrite IH. by replace (S i + a)%nat with (i + S a)%nat by lia.
Qed.

Lemma slots_stopped_range rb n i s s' j :
  slots rb n i s = Stopped s' j -> (i <= j < i + n)%nat.
Proof.
  revert i s; induction n as [|n IH]; intros i s; unroll; [done|].
  destruct (body (nth i rb 0) s).
  - intros H%IH. lia.
  - intros [= _ <-]. lia.
Qed.

Lemma slots_running_ext rb rb' n i s :
  (forall j, (i <= j < i + n)%nat -> nth j rb 0 = nth j rb' 0) ->
  slots rb n i s = slots rb' n i s.
Proof.
  revert i s; induction n as [|n IH]; intros i s Hag; unroll; [done|].
  rewrite <- (Hag i) by lia.
  destruct (body (nth i rb 0) s); [|done].
  apply IH. intros j Hj. apply Hag. lia.
Qed.

Lemma slots_stopped_ext rb rb' n i s s' j :
  slots rb n i s = Stopped s' j ->
  (forall k, (i <= k <= j)%nat -> nth k rb 0 = nth k rb' 0) ->
  slots rb' n i s = Stopped s' j.
Proof.
  revert i s; induction n as [|n IH]; intros i s; unroll; [done|].
  intros Hrun Hag.
  assert (i <= j)%nat as Hij.
  { destruct (body (nth i rb 0) s) eqn:E.
    - apply slots_stopped_range in Hrun. lia.
    - injection Hrun as _ <-. lia. }
  rewrite <- (Hag i) by lia.
  destruct (body (nth i rb 0) s); [|done].
  apply (IH _ _ Hrun). intros k Hk. apply Hag. lia.
Qed.

(** Agreement on the slots the scan examined gives the same run. *)
Lemma all_prefix rb rb' db :
  (forall j, (j <= stop_index rb db)%nat -> nth j rb 0 = nth j rb' 0) ->
  all rb' db = all rb db.
Proof.
  unfold stop_index, all, upto. intros Hag.
  destruct (slots rb BUFFER_SIZE 0 (init db)) as [s|s j] eqn:E.
  - rewrite <- E. symmetry. apply slots_running_ext.
    intros j Hj. apply Hag. unfold BUFFER_SIZE in *. lia.
  - apply (slots_stopped_ext _ _ _ _ _ _ _ E).
    intros k Hk. apply Hag. lia.
Qed.

(** ** Words the scan passes over *)

Lemma body_other w s : packet_cmd w <> 5 -> body w s = Continue s.
Proof. unfold body. intros H. by destruct (Z.eqb_spec (packet_cmd w) 5). Qed.

Lemma body_idle w s :
  data_start s = false ->
  ~ (packet_cmd w = 5 /\ packet_addr w = 0) ->
  body w s = Continue s.
Proof.
  unfold body. intros Hs Hw.
  destruct (Z.eqb_spec (packet_cmd w) 5); [|done].
  destruct (Z.eqb_spec (packet_addr w) 0); [tauto|].
  by rewrite Hs.
Qed.

Lemma slots_idle rb n i s :
  data_start s = false ->
  (forall j, (i <= j < i + n)%nat ->
     ~ (packet_cmd (nth j rb 0) = 5 /\ packet_addr (nth j rb 0) = 0)) ->
  slots rb n i s = Running s.
Proof.
  intros Hs. revert i; induction n as [|n IH]; intros i Hw; unroll; [done|].
  rewrite body_idle by (auto; apply Hw; lia).
  apply IH. intros j Hj. apply Hw. lia.
Qed.

(** ** An address mismatch *)

Lemma body_mismatch w s :
  data_start s = true ->
  packet_cmd w = 5 ->
  packet_addr w <> expected_addr s ->
  body w s = Break (set_success false s).
Proof.
  unfold body. intros Hs Hc Ha. rewrite Hc. simpl.
  replace (if packet_addr w =? 0 then set_data_start true s else s) with s.
  - rewrite Hs. by destruct (Z.eqb_spec (packet_addr w) (expected_addr s)).
  - destruct (packet_addr w =? 0); [|done].
    destruct s; simpl in *. by subst.
Qed.

Lemma body_restart w s :
  packet_cmd w = 5 ->
  packet_addr w = 0 ->
  expected_addr s <> 0 ->
  body w s = Break (set_success false (set_data_start true s)).
Proof.
  unfold body. intros -> -> He. simpl.
  by destruct (expected_addr s).
Qed.

Lemma all_from rb db m s :
  (m <= BUFFER_SIZE)%nat ->
  upto rb db m = Running s ->
  all rb db = slots rb (BUFFER_SIZE - m) m s.
Proof.
  unfold all, upto. intros Hm Hs.
  replace BUFFER_SIZE with (m + (BUFFER_SIZE - m))%nat at 1 by lia.
  by rewrite slots_app, Hs.
Qed.

(** ** An accepted word *)

Lemma body_accept w s :
  packet_cmd w = 5 ->
  packet_addr w = expected_addr s ->
  data_start s = true \/ packet_addr w = 0 ->
  body w s =
  if packet_addr w =? 30 then Break (set_success true (accepted w s))
  else Continue (accepted w s).
Proof.
  unfold body. intros Hc Ha Hs. rewrite Hc. simpl.
  set (s1 := if packet_addr w =? 0 then set_data_start true s else s).
  assert (s1 = set_data_start true s) as ->.
  { subst s1. destruct (Z.eqb_spec (packet_addr w) 0) as [E|E]; [done|].
    destruct Hs as [Hs|Hs]; [|done]. destruct s; simpl in *. by subst. }
  simpl. rewrite (proj2 (Z.eqb_eq _ _) Ha). simpl.
  by destruct (packet_addr w =? 30).
Qed.

(** ** The write index *)

Lemma counted_init db : counted (init db).
Proof. unfold counted; simpl. repeat split; lia. Qed.

Lemma counted_settled s : counted s -> settled s.
Proof.
  intros (He & Hi & Hs & Hw). exists (Z.to_nat (data_idx s)).
  repeat split; [lia|done|rewrite Hs; done|lia].
Qed.

Lemma counted_break s : counted s -> settled (set_success false s).
Proof.
  intros (He & Hi & Hs & Hw). exists (Z.to_nat (data_idx s)). simpl.
  repeat split; [lia|done|done|lia].
Qed.

Lemma accepted_counted w s :
  counted s ->
  packet_addr w = expected_addr s ->
  packet_addr w <> 30 ->
  counted (accepted w s).
Proof.
  intros (He & Hi & Hs & Hw) Ha H30. unfold counted, accepted, wrap8, wrap32.
  cbn [expected_addr data_idx success writes].
  rewrite !Z.mod_small by lia. repeat split; try done; try lia.
  rewrite map_app, Hw.
  replace (Z.to_nat (data_idx s + 1)) with (Z.to_nat (data_idx s) + 1)%nat
    by lia.
  rewrite seq_app, map_app. simpl. do 2 f_equal. lia.
Qed.

Lemma accepted_settled w s :
  counted s ->
  packet_addr w = expected_addr s ->
  packet_addr w = 30 ->
  settled (set_success true (accepted w s)).
Proof.
  intros (He & Hi & Hs & Hw) Ha H30. exists 16%nat.
  cbn [set_success accepted success writes].
  repeat split; try done.
  rewrite map_app, Hw.
  replace (Z.to_nat (data_idx s)) with 15%nat by lia.
  simpl. do 16 f_equal. lia.
Qed.

Lemma body_counted w s :
  counted s ->
  match body w s with
  | Continue s' => counted s'
  | Break s' => settled s'
  end.
Proof.
  intros Hc.
  destruct (Z.eq_dec (packet_cmd w) 5) as [Hcmd|Hcmd];
    [|by rewrite body_other].
  destruct (data_start s) eqn:Hst, (Z.eq_dec (packet_addr w) 0) as [H0|H0],
    (Z.eq_dec (packet_addr w) (expected_addr s)) as [Ha|Ha].
  (* started *)
  1, 3: rewrite body_accept by auto;
        destruct (Z.eqb_spec (packet_addr w) 30);
        [by apply accepted_settled | by apply accepted_counted].
  1, 2: rewrite body_mismatch by auto; by apply counted_break.
  (* not started, address 0 *)
  - rewrite body_accept by auto.
    destruct (Z.eqb_spec (packet_addr w) 30);
      [by apply accepted_settled | by apply accepted_counted].
  - rewrite body_restart by (auto; lia).
    by apply (counted_break (set_data_start true s)).
  (* not started, another address *)
  - by rewrite body_idle by tauto.
  - by rewrite body_idle by tauto.
Qed.

Lemma slots_settled rb n i s : counted s -> settled (final (slots rb n i s)).
Proof.
  revert i s; induction n as [|n IH]; intros i s Hc; unroll.
  - by apply counted_settled.
  - pose proof (body_counted (nth i rb 0) s Hc) as Hb.
    destruct (body (nth i rb 0) s); [by apply IH | done].
Qed.

(** ** The scan as a pass over the list of words *)

Lemma final_slots_cons w rb n i s :
  final (slots (w :: rb) n (S i) s) = final (slots rb n i s).
Proof.
  revert i s; induction n as [|n IH]; intros i s; unroll; [done|].
  destruct (body (nth i rb 0) s); [apply IH | done].
Qed.

Lemma final_slots_over rb s :
  final (slots rb (length rb) 0 s) = flow_state (over rb s).
Proof.
  revert s; induction rb as [|w rb IH]; intros s; unroll; [done|].
  destruct (body w s); [|done]. by rewrite final_slots_cons.
Qed.

Lemma final_all_over rb db :
  length rb = BUFFER_SIZE ->
  final (all rb db) = flow_state (over rb (init db)).
Proof. unfold all, upto. intros <-. apply final_slots_over. Qed.

Lemma over_app ws1 ws2 s :
  over (ws1 ++ ws2) s =
  match over ws1 s with
  | Continue s' => over ws2 s'
  | Break s' => Break s'
  end.
Proof.
  revert s; induction ws1 as [|w ws1 IH]; intros s; unroll; [done|].
  by destruct (body w s).
Qed.

Lemma over_write_words rb s : over rb s = over (write_words rb) s.
Proof.
  unfold write_words.
  revert s; induction rb as [|w rb IH]; intros s; [done|].
  rewrite filter_cons. case_decide as Hw; unroll.
  - destruct (body w s); [apply IH | done].
  - rewrite body_other by done. apply IH.
Qed.

Lemma over_idle ws s :
  data_start s = false ->
  Forall (fun w => packet_addr w <> 0) ws ->
  over ws s = Continue s.
Proof.
  intros Hs. induction 1 as [|w ws Hw _ IH]; unroll; [done|].
  rewrite body_idle by tauto. done.
Qed.

(** A run of accepted words that stops short of address 30 fills the slots
    after [done] in order. *)
Lemma over_accept ws : forall done rest s,
  data_buffer s = done ++ rest ->
  data_idx s = Z.of_nat (length done) ->
  expected_addr s = 2 * Z.of_nat (length done) ->
  data_start s = true \/ done = [] ->
  Forall (fun w => packet_cmd w = 5) ws ->
  map packet_addr ws
    = map (fun k => 2 * Z.of_nat k) (seq (length done) (length ws)) ->
  (length done + length ws <= 15)%nat ->
  (length ws <= length rest)%nat ->
  exists s',
    over ws s = Continue s' /\
    data_buffer s'
      = (done ++ map (fun w => stored (packet_addr w) w) ws)
          ++ drop (length ws) rest /\
    data_idx s' = Z.of_nat (length done + length ws) /\
    expected_addr s' = 2 * Z.of_nat (length done + length ws) /\
    (data_start s' = true \/ ws = [] /\ done = []) /\
    success s' = success s.
Proof.
  induction ws as [|w ws IH];
    intros done rest s Hdb Hidx Hexp Hst Hcmd Hadr Hlen Hrest.
  - exists s. simpl. rewrite app_nil_r, Nat.add_0_r.
    repeat split; try done. destruct Hst; auto.
  - simpl in Hadr, Hlen, Hrest. injection Hadr as Ha Hadr.
    apply Forall_cons in Hcmd as [Hc Hcmd].
    destruct rest as [|r rest]; [simpl in Hrest; lia|]. simpl in Hrest.
    simpl. rewrite body_accept; [|done|lia|].
    2:{ destruct Hst as [?| ->]; [by left|by right]. }
    destruct (Z.eqb_spec (packet_addr w) 30); [lia|].
    destruct (IH (done ++ [stored (packet_addr w) w]) rest (accepted w s))
      as (s' & Hov & Hdb' & Hidx' & Hexp' & Hst' & Hsucc').
    + simpl. rewrite Hdb, Hidx, Nat2Z.id.
      rewrite insert_app_r_alt by lia. rewrite Nat.sub_diag. simpl.
      by rewrite <- app_assoc.
    + simpl. rewrite Hidx, length_app. simpl. unfold wrap8.
      rewrite Z.mod_small; lia.
    + simpl. rewrite Hexp, length_app. simpl. unfold wrap32.
      rewrite Z.mod_small; lia.
    + by left.
    + done.
    + rewrite length_app. simpl. by rewrite Nat.add_1_r.
    + rewrite length_app. simpl. lia.
    + lia.
    + exists s'. rewrite length_app in *. simpl in *.
      repeat split.
      * done.
      * rewrite Hdb'. by rewrite <- !app_assoc.
      * rewrite Hidx'. lia.
      * rewrite Hexp'. lia.
      * left. destruct Hst' as [?|[_ Hnil]]; [done|]. by destruct done.
      * done.
Qed.

(** Sixteen command-5 words with addresses 0, 2, ..., 30, met by a scan that
    has not started: the scan breaks with success on the sixteenth and the
    data buffer holds the sixteen stored values. *)
Lemma over_sequence ws post db s :
  length db = 16%nat ->
  data_buffer s = db ->
  data_idx s = 0 ->
  expected_addr s = 0 ->
  Forall (fun w => packet_cmd w = 5) ws ->
  map packet_addr ws = sequence_addrs ->
  exists s',
    over (ws ++ post) s = Break s' /\
    success s' = true /\
    data_buffer s' = map (fun w => stored (packet_addr w) w) ws.
Proof.
  intros Hlen Hdb Hidx Hexp Hcmd Hadr.
  assert (length ws = 16%nat) as Hws
    by (by rewrite <- (length_map packet_addr), Hadr).
  rewrite <- (take_drop 15 ws) in Hcmd, Hadr |- *.
  destruct (drop 15 ws) as [|w [|??]] eqn:Hlast;
    apply (f_equal length) in Hlast; rewrite length_drop in Hlast;
    simpl in Hlast; try lia.
  assert (length (take 15 ws) = 15%nat) as Htk by (rewrite length_take; lia).
  apply Forall_app in Hcmd as [Hcmd Hw]. apply Forall_inv in Hw.
  rewrite map_app in Hadr.
  change sequence_addrs
    with (map (fun k => 2 * Z.of_nat k) (seq 0 15) ++ [30]) in Hadr.
  apply app_inj_1 in Hadr as [Hadr Ha]; [|by rewrite !length_map, Htk].
  simpl in Ha. injection Ha as Ha.
  destruct (over_accept (take 15 ws) [] db s)
    as (s' & Hov & Hdb' & Hidx' & Hexp' & Hst' & Hsucc'); simpl; try done.
  - by right.
  - by rewrite Htk.
  - lia.
  - lia.
  - rewrite <- app_assoc, over_app, Hov. simpl.
    rewrite Htk in *. simpl in *.
    rewrite body_accept; [|done|lia|].
    2:{ destruct Hst' as [?|[Hnil _]]; [by left|].
        by rewrite Hnil in Htk. }
    rewrite Ha. simpl. eexists; repeat split. simpl.
    rewrite Hdb', Hidx', map_app. simpl.
    rewrite insert_app_r_alt by (rewrite length_map, Htk; simpl; lia).
    rewrite length_map, Htk. simpl.
    destruct (drop 15 db) as [|d [|??]] eqn:Hd;
      apply (f_equal length) in Hd; rewrite length_drop in Hd;
      simpl in Hd; try lia.
    by rewrite Ha.
Qed.

(** Once a command-5 word with address 0 has been examined, a scan that is
    still running has started. *)
Lemma body_started w s s' :
  body w s = Continue s' ->
  data_start s = true \/ (packet_cmd w = 5 /\ packet_addr w = 0) ->
  data_start s' = true.
Proof.
  intros Hb [Hs|[Hc Ha]].
  - destruct (Z.eq_dec (packet_cmd w) 5) as [Hc|Hc].
    + destruct (Z.eq_dec (packet_addr w) (expected_addr s)) as [Ha|Ha].
      * rewrite body_accept in Hb by auto.
        destruct (packet_addr w =? 30); [done|]. by injection Hb as <-.
      * by rewrite body_mismatch in Hb.
    + rewrite body_other in Hb by done. by injection Hb as <-.
  - destruct (Z.eq_dec (expected_addr s) 0) as [He|He].
    + rewrite body_accept in Hb by (auto; lia).
      destruct (packet_addr w =? 30); [done|]. by injection Hb as <-.
    + by rewrite body_restart in Hb.
Qed.

Lemma slots_started rb n i s s' :
  slots rb n i s = Running s' ->
  data_start s = true \/
    (exists j, (i <= j < i + n)%nat /\
               packet_cmd (nth j rb 0) = 5 /\ packet_addr (nth j rb 0) = 0) ->
  data_start s' = true.
Proof.
  revert i s; induction n as [|n IH]; intros i s; unroll.
  - intros [= <-] [?|(j & ? & _)]; [done|lia].
  - destruct (body (nth i rb 0) s) as [s1|s1] eqn:Hb; [|done].
    intros Hrun Hst. apply (IH _ _ Hrun).
    destruct Hst as [Hs|(j & Hj & Hc & Ha)].
    + left. apply (body_started _ _ _ Hb). by left.
    + destruct (decide (j = i)) as [->|Hne].
      * left. apply (body_started _ _ _ Hb). by right.
      * right. exists j. split; [lia|done].
Qed.

End ScanFacts.

(** * Properties of the digit decoder *)

Module DecodeFacts.

Lemma lut_1_ok : lut_ok data_digit_lut_1.
Proof. repeat split. compute_done. Qed.

Lemma lut_2_ok : lut_ok data_digit_lut_2.
Proof. repeat split. compute_done. Qed.

Lemma fold_lut_step_nomatch lut v k js acc :
  Forall (fun j => v <> nth j (snd lut) 0) js ->
  fold_left (lut_step lut v k) js acc = acc.
Proof.
  induction 1 as [|j js Hj _ IH]; simpl; [done|].
  unfold lut_step at 2. by destruct (Z.eqb_spec v (nth j (snd lut) 0)).
Qed.

(** A pattern outside the table leaves the accumulator as it was. *)
Lemma lut_loop_nomatch lut v k acc :
  length (snd lut) = 10%nat ->
  v ∉ snd lut ->
  lut_loop lut v k acc = acc.
Proof.
  intros Hlen Hv. apply fold_lut_step_nomatch, Forall_forall.
  intros j Hj%list_elem_of_In%in_seq ->. apply Hv, list_elem_of_In, nth_In. lia.
Qed.

Lemma nth_lut_digits j : (j < 10)%nat -> nth j lut_digits 0 = Z.of_nat j.
Proof. intros Hj. do 10 (destruct j as [|j]; [done|]). lia. Qed.

(** The j-th pattern adds the digit j at the given power of ten. *)
Lemma lut_loop_match lut j k acc :
  lut_ok lut ->
  (j < 10)%nat ->
  lut_loop lut (nth j (snd lut) 0) k acc = wrap32 (acc + Z.of_nat j * 10 ^ k).
Proof.
  intros (Hd & Hlen & Hnd) Hj. unfold lut_loop.
  assert (forall i, (i < 10)%nat -> i <> j ->
                    nth j (snd lut) 0 <> nth i (snd lut) 0) as Hne.
  { intros i Hi Hij E. apply Hij. symmetry.
    apply (proj1 (NoDup_nth (snd lut) 0) (proj1 (NoDup_ListNoDup _) Hnd));
      [lia|lia|done]. }
  replace (seq 0 10) with (seq 0 j ++ j :: seq (S j) (9 - j)).
  2:{ change (j :: seq (S j) (9 - j)) with (seq j (S (9 - j))).
      rewrite <- seq_app. f_equal. lia. }
  rewrite fold_left_app. simpl.
  rewrite (fold_lut_step_nomatch _ _ _ (seq 0 j)).
  2:{ apply Forall_forall. intros i Hi%list_elem_of_In%in_seq. apply Hne; lia. }
  unfold lut_step at 2. rewrite Z.eqb_refl, Hd, nth_lut_digits by done.
  apply fold_lut_step_nomatch, Forall_forall.
  intros i Hi%list_elem_of_In%in_seq. apply Hne; lia.
Qed.

(** The two cases together. *)
Lemma lut_loop_cases lut v k acc :
  lut_ok lut ->
  ((v ∉ snd lut) /\ lut_loop lut v k acc = acc) \/
  (exists j, (j < 10)%nat /\ nth j (snd lut) 0 = v /\
             lut_loop lut v k acc = wrap32 (acc + Z.of_nat j * 10 ^ k)).
Proof.
  intros Hok. destruct (decide (v ∈ snd lut)) as [Hin|Hout].
  - right. apply list_elem_of_In, (In_nth _ _ 0) in Hin as (j & Hj & <-).
    destruct Hok as (? & Hlen & ?). rewrite Hlen in Hj.
    exists j. repeat split; [done|]. by apply lut_loop_match.
  - left. split; [done|]. apply lut_loop_nomatch; [apply Hok|done].
Qed.

Lemma lut_value_range lut v : lut_ok lut -> 0 <= lut_value lut v <= 9.
Proof.
  intros Hok. unfold lut_value.
  destruct (lut_loop_cases lut v 0 0 Hok) as [[_ ->]|(j & Hj & _ & ->)]; [lia|].
  unfold wrap32. rewrite Z.mod_small; lia.
Qed.

(** Without overflow of the accumulator the inner loop adds the digit times
    the power of ten. *)
Lemma lut_loop_value lut v k acc :
  lut_ok lut ->
  0 <= k -> 0 <= acc -> acc + 9 * 10 ^ k < 2 ^ 32 ->
  lut_loop lut v k acc = acc + lut_value lut v * 10 ^ k.
Proof.
  intros Hok Hk Hacc Hlt. unfold lut_value.
  assert (0 < 10 ^ k) as Hpow by (apply Z.pow_pos_nonneg; lia).
  destruct (lut_loop_cases lut v k acc Hok) as [[Hv ->]|(j & Hj & Hn & ->)].
  - rewrite lut_loop_nomatch by (done || apply Hok). lia.
  - rewrite <- Hn, lut_loop_match by done.
    unfold wrap32. rewrite !Z.mod_small; nia.
Qed.

Lemma four_digits_range lut v0 v1 v2 v3 :
  lut_ok lut -> 0 <= four_digits lut v0 v1 v2 v3 <= 9999.
Proof.
  intros Hok. unfold four_digits.
  pose proof (lut_value_range lut v0 Hok).
  pose proof (lut_value_range lut v1 Hok).
  pose proof (lut_value_range lut v2 Hok).
  pose proof (lut_value_range lut v3 Hok).
  lia.
Qed.

Lemma lut_loop_four lut v0 v1 v2 v3 :
  lut_ok lut ->
  lut_loop lut v3 0
    (lut_loop lut v2 1 (lut_loop lut v1 2 (lut_loop lut v0 3 0)))
  = four_digits lut v0 v1 v2 v3.
Proof.
  intros Hok. unfold four_digits.
  pose proof (lut_value_range lut v0 Hok).
  pose proof (lut_value_range lut v1 Hok).
  pose proof (lut_value_range lut v2 Hok).
  pose proof (lut_value_range lut v3 Hok).
  rewrite (lut_loop_value lut v0 3 0) by (done || lia).
  rewrite (lut_loop_value lut v1 2) by (done || lia).
  rewrite (lut_loop_value lut v2 1) by (done || lia).
  rewrite (lut_loop_value lut v3 0) by (done || lia).
  lia.
Qed.

Lemma voltage_loop_digits db :
  voltage_loop db
  = four_digits data_digit_lut_1
      (nth 0 db 0) (nth 1 db 0) (nth 2 db 0) (nth 3 db 0).
Proof. apply (lut_loop_four data_digit_lut_1), lut_1_ok. Qed.

Lemma current_loop_digits db :
  current_loop db
  = four_digits data_digit_lut_1
      (nth 4 db 0) (nth 5 db 0) (nth 6 db 0) (nth 7 db 0).
Proof. apply (lut_loop_four data_digit_lut_1), lut_1_ok. Qed.

Lemma power_loop_digits db :
  power_loop db
  = four_digits data_digit_lut_2
      (Z.shiftr (nth 8 db 0) 1) (Z.shiftr (nth 9 db 0) 1)
      (Z.shiftr (nth 10 db 0) 1) (Z.shiftr (nth 11 db 0) 1).
Proof. apply (lut_loop_four data_digit_lut_2), lut_2_ok. Qed.

Lemma energy_loop_digits db :
  energy_loop db
  = four_digits data_digit_lut_2
      (Z.shiftr (nth 12 db 0) 1) (Z.shiftr (nth 13 db 0) 1)
      (Z.shiftr (nth 14 db 0) 1) (Z.shiftr (nth 15 db 0) 1).
Proof. apply (lut_loop_four data_digit_lut_2), lut_2_ok. Qed.

(** The flag tests [slot & 0x01] read bit 0. *)
Lemma land_1_testbit x : (Z.land x 0x01 =? 0) = negb (Z.testbit x 0).
Proof.
  change 0x01 with (Z.ones 1). rewrite Z.land_ones by lia.
  change (2 ^ 1) with 2. rewrite <- Z.bit0_mod.
  by destruct (Z.testbit x 0).
Qed.

(** Ranges of the four results after a successful extraction. *)
Lemma voltage_of_range db : (0 <= voltage_of db <= 9999 # 100)%Q.
Proof.
  unfold voltage_of. rewrite voltage_loop_digits.
  pose proof (four_digits_range data_digit_lut_1
                (nth 0 db 0) (nth 1 db 0) (nth 2 db 0) (nth 3 db 0) lut_1_ok).
  unfold Qle, Qdiv, Qmult, Qinv, inject_Z; simpl. lia.
Qed.

Lemma current_of_range db : (0 <= current_of db <= 9999 # 100)%Q.
Proof.
  unfold current_of. rewrite current_loop_digits.
  pose proof (four_digits_range data_digit_lut_1
                (nth 4 db 0) (nth 5 db 0) (nth 6 db 0) (nth 7 db 0) lut_1_ok).
  unfold Qle, Qdiv, Qmult, Qinv, inject_Z; simpl. lia.
Qed.

Lemma power_of_range db : (0 <= power_of db <= 9999 # 1)%Q.
Proof.
  unfold power_of. rewrite power_loop_digits.
  pose proof (four_digits_range data_digit_lut_2
                (Z.shiftr (nth 8 db 0) 1) (Z.shiftr (nth 9 db 0) 1)
                (Z.shiftr (nth 10 db 0) 1) (Z.shiftr (nth 11 db 0) 1) lut_2_ok).
  destruct (negb _);
    unfold Qle, Qdiv, Qmult, Qinv, inject_Z; simpl; lia.
Qed.

(** [get_energy] in closed form: no wrap-around occurs. *)
Lemma energy_of_digits db :
  energy_of db
  = (if Z.testbit (nth 15 db 0) 0 then 1000 else 1)
    * four_digits data_digit_lut_2
        (Z.shiftr (nth 12 db 0) 1) (Z.shiftr (nth 13 db 0) 1)
        (Z.shiftr (nth 14 db 0) 1) (Z.shiftr (nth 15 db 0) 1).
Proof.
  unfold energy_of. rewrite energy_loop_digits, land_1_testbit, negb_involutive.
  pose proof (four_digits_range data_digit_lut_2
                (Z.shiftr (nth 12 db 0) 1) (Z.shiftr (nth 13 db 0) 1)
                (Z.shiftr (nth 14 db 0) 1) (Z.shiftr (nth 15 db 0) 1) lut_2_ok).
  unfold to_int32, wrap32.
  destruct (Z.testbit (nth 15 db 0) 0).
  - rewrite Z.mod_small by lia.
    destruct (Z.ltb_spec (four_digits data_digit_lut_2
                (Z.shiftr (nth 12 db 0) 1) (Z.shiftr (nth 13 db 0) 1)
                (Z.shiftr (nth 14 db 0) 1) (Z.shiftr (nth 15 db 0) 1) * 1000)
                (2 ^ 31)); lia.
  - destruct (Z.ltb_spec (four_digits data_digit_lut_2
                (Z.shiftr (nth 12 db 0) 1) (Z.shiftr (nth 13 db 0) 1)
                (Z.shiftr (nth 14 db 0) 1) (Z.shiftr (nth 15 db 0) 1))
                (2 ^ 31)); lia.
Qed.

(** The accessors after a successful extraction. *)
Lemma get_voltage_ok rb db db' :
  process_data_buffer rb db = (true, db') ->
  get_voltage rb db = (voltage_of db', db').
Proof. unfold get_voltage. by intros ->. Qed.

Lemma get_current_ok rb db db' :
  process_data_buffer rb db = (true, db') ->
  get_current rb db = (current_of db', db').
Proof. unfold get_current. by intros ->. Qed.

Lemma get_power_ok rb db db' :
  process_data_buffer rb db = (true, db') ->
  get_power rb db = (power_of db', db').
Proof. unfold get_power. by intros ->. Qed.

Lemma get_energy_ok rb db db' :
  process_data_buffer rb db = (true, db') ->
  get_energy rb db = (energy_of db', db').
Proof. unfold get_energy. by intros ->. Qed.

End DecodeFacts.

(** * Properties of the bit sampler *)

Module SamplerFacts.
Import Sampler.

Lemma testbit_b2z (b : bool) (n : Z) : Z.testbit (Z.b2z b) n = b && (n =? 0).
Proof.
  destruct b; simpl.
  - destruct n as [|p|p]; try done; by destruct p.
  - apply Z.bits_0.
Qed.

(** A level shifted into one of the seventeen bit positions fits an [int]. *)
Lemma shl_int_level (b : bool) (n : Z) :
  0 <= n <= 16 -> shl_int (Z.b2z b) n = Some (Z.shiftl (Z.b2z b) n).
Proof.
  intros Hn. unfold shl_int.
  assert (Z.shiftl (Z.b2z b) n < 2 ^ 31) as Hlt.
  { rewrite Z.shiftl_mul_pow2 by lia.
    assert (2 ^ n <= 2 ^ 16) by (apply Z.pow_le_mono_r; lia).
    destruct b; simpl Z.b2z; lia. }
  destruct (Z.leb_spec 0 n), (Z.ltb_spec n 32),
    (Z.ltb_spec (Z.shiftl (Z.b2z b) n) (2 ^ 31)); simpl; (done || lia).
Qed.

(** Bit [k] of the OR of the shifted levels is the level sampled at
    position [16 - k]. *)
Lemma testbit_or_shifted bs : forall p k,
  0 <= p -> 0 <= k -> p + Z.of_nat (length bs) <= 17 ->
  Z.testbit (or_shifted p bs) k
  = if decide (k <= 16 - p) then nth (Z.to_nat (16 - p - k)) bs false
    else false.
Proof.
  induction bs as [|b bs IH]; intros p k Hp Hk Hlen; simpl in *.
  - rewrite Z.bits_0. destruct (decide (k <= 16 - p)); [|done].
    by destruct (Z.to_nat _).
  - rewrite Z.lor_spec, Z.shiftl_spec, testbit_b2z, IH by lia.
    destruct (decide (k <= 16 - p)) as [H1|H1],
             (decide (k <= 16 - (p + 1))) as [H2|H2]; try lia.
    + assert (k - (16 - p) <> 0) as ->%Z.eqb_neq by lia.
      rewrite andb_false_r. simpl.
      replace (Z.to_nat (16 - p - k)) with (S (Z.to_nat (16 - (p + 1) - k)))
        by lia.
      done.
    + assert (k - (16 - p) = 0) as ->%Z.eqb_eq by lia.
      replace (Z.to_nat (16 - p - k)) with 0%nat by lia.
      by rewrite andb_true_r, orb_false_r.
Qed.

(** The clock edges of one asserted interval, from bit position [p]. *)
Lemma steps_clock bs : forall s,
  clk_attached s = true ->
  (Z.to_nat (buffer_idx s) < length (read_buffer s))%nat ->
  0 <= read_digit s ->
  read_digit s + Z.of_nat (length bs) <= 17 ->
  steps s (map CLK bs)
  = Some (mk (<[Z.to_nat (buffer_idx s) :=
                  Z.lor (current_word s) (or_shifted (read_digit s) bs)]>
                (read_buffer s))
             (buffer_idx s)
             (read_digit s + Z.of_nat (length bs))
             true).
Proof.
  induction bs as [|b bs IH]; intros s Hclk Hidx Hp Hlen; simpl in *.
  - rewrite Z.lor_0_r, Z.add_0_r. unfold current_word.
    destruct (nth_lookup_or_length (read_buffer s) (Z.to_nat (buffer_idx s)) 0)
      as [Hw|Hw]; [|lia].
    rewrite list_insert_id by done.
    destruct s; simpl in *. by subst.
  - rewrite Hclk. unfold clock_isr. rewrite shl_int_level by lia.
    assert (wrap8 (read_digit s + 1) = read_digit s + 1) as Hw
      by (unfold wrap8; rewrite Z.mod_small; lia).
    rewrite IH; simpl; rewrite ?length_insert, ?Hw; try done; try lia.
    f_equal. f_equal; [|lia].
    rewrite list_insert_insert_eq. f_equal.
    unfold current_word. simpl.
    rewrite (nth_lookup_Some (<[_ := _]> _) _ _ _
               (list_lookup_insert_eq _ _ _ Hidx)).
    by rewrite Z.lor_assoc.
Qed.

(** One asserted interval: chip-select low, then the clock edges. *)
Lemma steps_asserted s bs :
  (Z.to_nat (buffer_idx s) < length (read_buffer s))%nat ->
  (length bs <= 17)%nat ->
  steps s (asserted bs)
  = Some (mk (<[Z.to_nat (buffer_idx s) := or_shifted 0 bs]> (read_buffer s))
             (buffer_idx s) (Z.of_nat (length bs)) true).
Proof.
  intros Hidx Hn. unfold asserted. cbn [steps step].
  assert (current_word (select_isr false s) = 0) as Hw0.
  { unfold current_word. simpl.
    by apply nth_lookup_Some, list_lookup_insert_eq. }
  rewrite steps_clock, Hw0; simpl; rewrite ?length_insert; try done; try lia.
  by rewrite list_insert_insert_eq.
Qed.

Lemma current_word_insert rb k p c w :
  (Z.to_nat k < length rb)%nat ->
  current_word (mk (<[Z.to_nat k := w]> rb) k p c) = w.
Proof.
  intros Hk. unfold current_word. simpl.
  by apply nth_lookup_Some, list_lookup_insert_eq.
Qed.

End SamplerFacts.

(** * The packet validator: claims *)

(** C1 (as amended).  When the command-5 words of the 32-slot ring, taken in
    slot order, contain sixteen consecutive ones [ws] with addresses
    0, 2, ..., 30, and no command-5 word before them has address 0, then
    [process_data_buffer] returns true and leaves in [data_buffer] the
    words of [ws] in order, the first eight masked with 0x77 and the last
    eight with 0xFF. *)
Theorem process_data_buffer_sequence (rb db pre ws post : list Z) :
  length rb = BUFFER_SIZE ->
  length db = 16%nat ->
  write_words rb = pre ++ ws ++ post ->
  map packet_addr ws = sequence_addrs ->
  Forall (fun w => packet_addr w <> 0) pre ->
  process_data_buffer rb db
  = (true, map (fun w => Z.land w 0x77) (take 8 ws)
           ++ map (fun w => Z.land w 0xFF) (drop 8 ws)).
Proof.
  intros Hrb Hdb Hww Hadr Hpre.
  unfold process_data_buffer.
  rewrite (ScanFacts.final_all_over _ _ Hrb), ScanFacts.over_write_words, Hww.
  rewrite ScanFacts.over_app, (ScanFacts.over_idle pre) by done.
  assert (Forall (fun w => packet_cmd w = 5) ws) as Hcmd.
  { assert (Forall (fun w => packet_cmd w = 5) (write_words rb)) as H.
    { apply Forall_forall. intros w Hw.
      by apply list_elem_of_filter in Hw as [? _]. }
    rewrite Hww in H. apply Forall_app in H as [_ H].
    by apply Forall_app in H as [H _]. }
  destruct (ScanFacts.over_sequence ws post db (Scan.init db))
    as (s' & Hov & Hok & Hbuf); try done.
  rewrite Hov. simpl. rewrite Hok, Hbuf. f_equal.
  rewrite <- (take_drop 8 ws) at 1. rewrite map_app. f_equal.
  - apply (f_equal (take 8)) in Hadr. rewrite firstn_map in Hadr.
    revert Hadr. generalize (take 8 ws). intros l Hl.
    do 9 (destruct l as [|? l]; [try done|]); [|done].
    unfold sequence_addrs in Hl. simpl in Hl. cbn [map].
    injection Hl as -> -> -> -> -> -> -> ->. done.
  - apply (f_equal (drop 8)) in Hadr. rewrite skipn_map in Hadr.
    revert Hadr. generalize (drop 8 ws). intros l Hl.
    do 9 (destruct l as [|? l]; [try done|]); [|done].
    unfold sequence_addrs in Hl. simpl in Hl. cbn [map].
    injection Hl as -> -> -> -> -> -> -> ->. done.
Qed.

Lemma process_data_buffer_sequence_witness :
  process_data_buffer capture_a data_buffer_init = (true, digits_a).
Proof.
  apply (process_data_buffer_sequence
           capture_a data_buffer_init [] (transmission digits_a) []).
  - reflexivity.
  - reflexivity.
  - reflexivity.
  - reflexivity.
  - constructor.
Defined.

(** C1 as stated fails: [capture_stale] holds sixteen consecutive command-5
    words with addresses 0, 2, ..., 30, yet the scan starts at the stray
    address-0 word before them and fails at the next one. *)
Lemma process_data_buffer_sequence_stale :
  length capture_stale = BUFFER_SIZE /\
  write_words capture_stale
    = [packet 0 0] ++ transmission digits_a ++ [] /\
  map packet_addr (transmission digits_a) = sequence_addrs /\
  fst (process_data_buffer capture_stale data_buffer_init) = false.
Proof. repeat split. Qed.

(** C5.  When no slot of the ring holds a command-5 word with address 0,
    [process_data_buffer] returns false (leaving [data_buffer] as it was),
    [get_voltage], [get_current] and [get_power] return -1.0 and
    [get_energy] returns -1. *)
Theorem no_start_sentinels (rb db : list Z) :
  (forall i, (i < BUFFER_SIZE)%nat ->
     ~ (packet_cmd (nth i rb 0) = 5 /\ packet_addr (nth i rb 0) = 0)) ->
  process_data_buffer rb db = (false, db) /\
  fst (get_voltage rb db) = (-1)%Q /\
  fst (get_current rb db) = (-1)%Q /\
  fst (get_power rb db) = (-1)%Q /\
  fst (get_energy rb db) = -1.
Proof.
  intros Hno.
  assert (process_data_buffer rb db = (false, db)) as Hp.
  { unfold process_data_buffer, Scan.all, Scan.upto.
    rewrite ScanFacts.slots_idle; [done|done|].
    intros j Hj. apply Hno. lia. }
  unfold get_voltage, get_current, get_power, get_energy.
  rewrite Hp. done.
Qed.

Lemma no_start_sentinels_witness :
  process_data_buffer capture_headless data_buffer_init
    = (false, data_buffer_init) /\
  fst (get_voltage capture_headless data_buffer_init) = (-1)%Q /\
  fst (get_current capture_headless data_buffer_init) = (-1)%Q /\
  fst (get_power capture_headless data_buffer_init) = (-1)%Q /\
  fst (get_energy capture_headless data_buffer_init) = -1.
Proof.
  apply (no_start_sentinels capture_headless data_buffer_init).
  intros i Hi. unfold BUFFER_SIZE in Hi.
  do 32 (destruct i as [|i]; [vm_compute; intros [? ?]; discriminate|]).
  lia.
Defined.

(** C6.  Suppose the scan reaches slot [m] still running, in a state with
    expected address [expected_addr s], after a command-5 word with address
    0 was examined in an earlier slot.  If slot [m] holds a command-5 word
    whose address differs from the expected one, the scan breaks at [m]
    with [success = false]: [process_data_buffer] returns false, the slots
    after [m] are not examined, and whatever they hold the result is the
    same. *)
Theorem mismatch_stops_scan (rb db : list Z) (m : nat) (s : Scan.state) :
  (m < BUFFER_SIZE)%nat ->
  Scan.upto rb db m = Scan.Running s ->
  (exists j, (j < m)%nat /\
             packet_cmd (nth j rb 0) = 5 /\ packet_addr (nth j rb 0) = 0) ->
  packet_cmd (nth m rb 0) = 5 ->
  packet_addr (nth m rb 0) <> Scan.expected_addr s ->
  Scan.all rb db = Scan.Stopped (Scan.set_success false s) m /\
  Scan.stop_index rb db = m /\
  process_data_buffer rb db = (false, Scan.data_buffer s) /\
  forall rb', (forall j, (j <= m)%nat -> nth j rb 0 = nth j rb' 0) ->
              process_data_buffer rb' db = (false, Scan.data_buffer s).
Proof.
  intros Hm Hrun Hzero Hcmd Hadr.
  assert (Scan.data_start s = true) as Hst.
  { apply (ScanFacts.slots_started _ _ _ _ _ Hrun). right.
    destruct Hzero as (j & Hj & Hw). exists j. split; [lia|done]. }
  assert (Scan.all rb db = Scan.Stopped (Scan.set_success false s) m) as Hall.
  { rewrite (ScanFacts.all_from rb db m s) by (done || lia).
    destruct (BUFFER_SIZE - m)%nat as [|k] eqn:Hk; [lia|]. simpl.
    by rewrite ScanFacts.body_mismatch. }
  assert (Scan.stop_index rb db = m) as Hstop
    by (unfold Scan.stop_index; by rewrite Hall).
  repeat split; try done.
  - unfold process_data_buffer. by rewrite Hall.
  - intros rb' Hag. unfold process_data_buffer.
    rewrite (ScanFacts.all_prefix rb rb' db), Hall by (by rewrite Hstop).
    done.
Qed.

Lemma mismatch_stops_scan_witness :
  Scan.stop_index capture_gap data_buffer_init = 2%nat /\
  process_data_buffer capture_gap data_buffer_init
    = (false, [117; 5; 0; 0; 0; 0; 0; 0; 0; 0; 0; 0; 0; 0; 0; 0]).
Proof.
  destruct (mismatch_stops_scan capture_gap data_buffer_init 2
              (Scan.final (Scan.upto capture_gap data_buffer_init 2)))
    as (_ & Hstop & Hres & _).
  - unfold BUFFER_SIZE. lia.
  - reflexivity.
  - exists 0%nat. split; [lia|]. split; reflexivity.
  - reflexivity.
  - vm_compute. discriminate.
  - split; [exact Hstop | exact Hres].
Defined.

(** C9.  If the scan of [rb] ends at slot [m] (by accepting address 30, by
    an address mismatch, or at the last slot of the ring), then on every
    ring [rb'] that agrees with [rb] on slots 0 .. m, and from the same
    [data_buffer], the scan returns the same flag, makes the same stores
    into [data_buffer] in the same order, and ends at the same slot. *)
Theorem scan_depends_on_prefix (rb rb' db : list Z) (m : nat) :
  Scan.stop_index rb db = m ->
  (forall j, (j <= m)%nat -> nth j rb 0 = nth j rb' 0) ->
  process_data_buffer rb' db = process_data_buffer rb db /\
  Scan.trace rb' db = Scan.trace rb db /\
  Scan.stop_index rb' db = m.
Proof.
  intros Hstop Hag.
  assert (Scan.all rb' db = Scan.all rb db) as Hall
    by (apply ScanFacts.all_prefix; by rewrite Hstop).
  unfold process_data_buffer, Scan.trace.
  rewrite <- Hstop. unfold Scan.stop_index. by rewrite Hall.
Qed.

Lemma scan_depends_on_prefix_witness :
  process_data_buffer (<[20%nat := packet 0 9]> capture_a) data_buffer_init
    = process_data_buffer capture_a data_buffer_init /\
  Scan.trace (<[20%nat := packet 0 9]> capture_a) data_buffer_init
    = Scan.trace capture_a data_buffer_init /\
  Scan.stop_index (<[20%nat := packet 0 9]> capture_a) data_buffer_init
    = 15%nat.
Proof.
  apply (scan_depends_on_prefix capture_a (<[20%nat := packet 0 9]> capture_a)
           data_buffer_init 15).
  - reflexivity.
  - intros j Hj.
    do 16 (destruct j as [|j]; [reflexivity|]). lia.
Defined.

(** C10.  Whatever the ring holds, [process_data_buffer] makes at most
    sixteen stores into [data_buffer], the k-th of them to index k, so
    every index is in 0 .. 15; and sixteen stores are made exactly when the
    function returns true. *)
Theorem data_buffer_writes_in_bounds (rb db : list Z) :
  let tr := Scan.trace rb db in
  (length tr <= 16)%nat /\
  Forall (fun p => 0 <= fst p < 16) tr /\
  map fst tr = map Z.of_nat (seq 0 (length tr)) /\
  (fst (process_data_buffer rb db) = true <-> length tr = 16%nat).
Proof.
  unfold Scan.trace, process_data_buffer, Scan.all, Scan.upto.
  cbv zeta. cbn [fst].
  destruct (ScanFacts.slots_settled rb BUFFER_SIZE 0 (Scan.init db)
              (ScanFacts.counted_init db)) as (n & Hn & Hw & Hs).
  set (s := Scan.final _) in *.
  assert (length (Scan.writes s) = n) as Hlen.
  { rewrite <- (length_map fst), Hw, length_map. apply length_seq. }
  rewrite Hlen. repeat split; try tauto.
  apply Forall_forall. intros p Hp.
  assert (fst p ∈ map fst (Scan.writes s)) as Hin
    by (apply list_elem_of_fmap; eauto).
  rewrite Hw in Hin. apply list_elem_of_fmap in Hin as (k & -> & Hk).
  apply list_elem_of_In, in_seq in Hk. lia.
Qed.

(** * The digit decoder: claims *)








(** C8.  After a successful extraction, an iteration of a digit loop whose
    slot (slots 0-7) or slot shifted right by 1 (slots 8-15) is none of the
    ten patterns of its table leaves the accumulator unchanged, and no
    accessor returns its sentinel. *)
Theorem unrecognized_digit_is_silent (rb db db' : list Z) :
  process_data_buffer rb db = (true, db') ->
  (forall i acc, (i < 4)%nat -> (nth i db' 0 ∉ snd data_digit_lut_1) ->
     voltage_body db' acc i = acc) /\
  (forall i acc, (4 <= i < 8)%nat -> (nth i db' 0 ∉ snd data_digit_lut_1) ->
     current_body db' acc i = acc) /\
  (forall i acc, (8 <= i < 12)%nat ->
     (Z.shiftr (nth i db' 0) 1 ∉ snd data_digit_lut_2) ->
     power_body db' acc i = acc) /\
  (forall i acc, (12 <= i < 16)%nat ->
     (Z.shiftr (nth i db' 0) 1 ∉ snd data_digit_lut_2) ->
     energy_body db' acc i = acc) /\
  ~ (fst (get_voltage rb db) == -1)%Q /\
  ~ (fst (get_current rb db) == -1)%Q /\
  ~ (fst (get_power rb db) == -1)%Q /\
  fst (get_energy rb db) <> -1.
Proof.
  intros Hp.
  rewrite (DecodeFacts.get_voltage_ok _ _ _ Hp),
    (DecodeFacts.get_current_ok _ _ _ Hp),
    (DecodeFacts.get_power_ok _ _ _ Hp),
    (DecodeFacts.get_energy_ok _ _ _ Hp).
  cbn [fst].
  repeat split.
  1-4: intros i acc _ Hv; by apply DecodeFacts.lut_loop_nomatch.
  - intros E. destruct (DecodeFacts.voltage_of_range db') as [H _].
    rewrite E in H. by apply H.
  - intros E. destruct (DecodeFacts.current_of_range db') as [H _].
    rewrite E in H. by apply H.
  - intros E. destruct (DecodeFacts.power_of_range db') as [H _].
    rewrite E in H. by apply H.
  - rewrite DecodeFacts.energy_of_digits.
    pose proof (DecodeFacts.four_digits_range data_digit_lut_2
                  (Z.shiftr (nth 12 db' 0) 1) (Z.shiftr (nth 13 db' 0) 1)
                  (Z.shiftr (nth 14 db' 0) 1) (Z.shiftr (nth 15 db' 0) 1)
                  DecodeFacts.lut_2_ok).
    destruct (Z.testbit (nth 15 db' 0) 0); lia.
Qed.

Lemma unrecognized_digit_is_silent_witness :
  voltage_body (<[0%nat := 0]> (<[15%nat := 0]> digits_a)) 7 0 = 7 /\
  energy_body (<[0%nat := 0]> (<[15%nat := 0]> digits_a)) 7 15 = 7 /\
  ~ (fst (get_voltage capture_blank data_buffer_init) == -1)%Q /\
  fst (get_energy capture_blank data_buffer_init) <> -1.
Proof.
  destruct (unrecognized_digit_is_silent capture_blank data_buffer_init
              (<[0%nat := 0]> (<[15%nat := 0]> digits_a)))
    as (Hv & _ & _ & He & Hgv & _ & _ & Hge).
  - vm_compute. reflexivity.
  - split; [apply Hv; [lia | compute_done]|].
    split; [apply He; [lia | compute_done]|].
    split; [exact Hgv | exact Hge].
Defined.

(** * The bit sampler: claims *)

(** C2 (as amended).  Chip-select goes low with the ring cursor at a slot
    of the 32-word ring, and the clock rises n <= 17 times with the data
    line at levels b_0 .. b_(n-1).  Then the handlers run without an
    undefined shift, the bit position is n at the end (it started at 0 and
    advanced by one per edge), and the word under the cursor is the OR of
    the b_i shifted left by 16 - i: bit k of the word is the level sampled
    at position 16 - k.  Bit 16 holds the first level; bit 0 holds the
    seventeenth, so it is written on a full 17-edge transaction and stays
    clear only when fewer than 17 edges occur. *)
Theorem captured_word (s : Sampler.state) (bs : list bool) :
  length (Sampler.read_buffer s) = BUFFER_SIZE ->
  0 <= Sampler.buffer_idx s < Z.of_nat BUFFER_SIZE ->
  (length bs <= 17)%nat ->
  exists s',
    Sampler.steps s (Sampler.asserted bs) = Some s' /\
    Sampler.buffer_idx s' = Sampler.buffer_idx s /\
    Sampler.read_digit s' = Z.of_nat (length bs) /\
    Sampler.current_word s' = Sampler.or_shifted 0 bs /\
    (forall k, 0 <= k <= 16 ->
       Z.testbit (Sampler.current_word s') k
       = nth (Z.to_nat (16 - k)) bs false) /\
    Z.testbit (Sampler.current_word s') 16 = nth 0 bs false /\
    Z.testbit (Sampler.current_word s') 0 = nth 16 bs false.
Proof.
  intros Hlen Hidx Hn. unfold BUFFER_SIZE in *.
  rewrite SamplerFacts.steps_asserted by lia.
  eexists. split; [reflexivity|].
  rewrite SamplerFacts.current_word_insert by lia.
  cbn [Sampler.buffer_idx Sampler.read_digit].
  assert (forall k, 0 <= k <= 16 ->
            Z.testbit (Sampler.or_shifted 0 bs) k
            = nth (Z.to_nat (16 - k)) bs false) as Hbits.
  { intros k Hk. rewrite SamplerFacts.testbit_or_shifted by lia.
    rewrite Z.sub_0_r. by destruct (decide (k <= 16)); [|lia]. }
  repeat split; try done.
  - by rewrite Hbits by lia.
  - by rewrite Hbits by lia.
Qed.

Lemma captured_word_witness :
  exists s',
    Sampler.steps Sampler.boot
      (Sampler.asserted [true; false; true; false; false; false; false;
                         false; false; false; true; true; true; false;
                         true; false; true]) = Some s' /\
    Sampler.current_word s' = packet 0 117 /\
    Z.testbit (Sampler.current_word s') 16 = true /\
    Z.testbit (Sampler.current_word s') 0 = true.
Proof.
  destruct (captured_word Sampler.boot
              [true; false; true; false; false; false; false;
               false; false; false; true; true; true; false;
               true; false; true])
    as (s' & Hs & _ & _ & Hw & _ & H16 & H0).
  - reflexivity.
  - unfold BUFFER_SIZE. simpl. lia.
  - simpl. lia.
  - exists s'. split; [exact Hs|]. split; [rewrite Hw; reflexivity|].
    split; [exact H16 | exact H0].
Defined.

(** C2 as stated fails in its last part: on a full 17-edge transaction bit
    0 of the word is written.  After sixteen edges at level 1 it is still
    clear; the seventeenth edge sets it. *)
Lemma bit_0_written_by_17th_edge :
  option_map (fun s => Z.testbit (Sampler.current_word s) 0)
    (Sampler.steps Sampler.boot (Sampler.asserted (repeat true 16)))
  = Some false /\
  option_map (fun s => Z.testbit (Sampler.current_word s) 0)
    (Sampler.steps Sampler.boot (Sampler.asserted (repeat true 17)))
  = Some true.
Proof. split; by vm_compute. Qed.

(** * Further properties of the packet validator *)

Module ScanMore.
Import Scan.

#[local] Arguments body : simpl never.

(** The five ways an iteration can end. *)
Lemma body_cases w s :
  body w s = Continue s \/
  body w s = Break (set_success false s) \/
  body w s = Break (set_success false (set_data_start true s)) \/
  (packet_cmd w = 5 /\ packet_addr w = expected_addr s /\
   packet_addr w <> 30 /\ body w s = Continue (accepted w s)) \/
  (packet_cmd w = 5 /\ packet_addr w = expected_addr s /\
   packet_addr w = 30 /\ body w s = Break (set_success true (accepted w s))).
Proof.
  destruct (Z.eq_dec (packet_cmd w) 5) as [Hcmd|Hcmd];
    [|left; by apply ScanFacts.body_other].
  destruct (data_start s) eqn:Hst, (Z.eq_dec (packet_addr w) 0) as [H0|H0],
    (Z.eq_dec (packet_addr w) (expected_addr s)) as [Ha|Ha].
  1, 3, 5: rewrite ScanFacts.body_accept by auto;
           destruct (Z.eqb_spec (packet_addr w) 30);
           [do 4 right|do 3 right; left]; done.
  1, 2: right; left; by apply ScanFacts.body_mismatch.
  - do 2 right; left. apply ScanFacts.body_restart; auto. lia.
  - left. apply ScanFacts.body_idle; tauto.
  - left. apply ScanFacts.body_idle; tauto.
Qed.

(** ** Success only on a full sequence *)

Lemma over_continue_success ws : forall s s',
  over ws s = Continue s' -> success s' = success s.
Proof.
  induction ws as [|w ws IH]; intros s s'; cbn [over].
  - by intros [= <-].
  - destruct (body_cases w s) as [E|[E|[E|[(_ & _ & _ & E)|(_ & _ & _ & E)]]]];
      rewrite E; try done.
    + apply IH.
    + intros H%IH. by rewrite H.
Qed.

(** A started scan that ends in success has accepted the rest of the
    sequence, from its expected address on. *)
Lemma over_started_success ws : forall (k : nat) s s',
  Forall (fun w => packet_cmd w = 5) ws ->
  data_start s = true ->
  success s = false ->
  expected_addr s = 2 * Z.of_nat k ->
  (k <= 15)%nat ->
  over ws s = Break s' ->
  success s' = true ->
  exists sq post,
    ws = sq ++ post /\
    map packet_addr sq = map (fun j => 2 * Z.of_nat j) (seq k (16 - k)).
Proof.
  induction ws as [|w ws IH]; intros k s s' Hcmd Hst Hsu He Hk; cbn [over];
    [done|].
  apply Forall_cons in Hcmd as [Hc Hcmd].
  destruct (Z.eq_dec (packet_addr w) (expected_addr s)) as [Ha|Ha].
  - rewrite ScanFacts.body_accept by auto.
    destruct (Z.eqb_spec (packet_addr w) 30) as [H30|H30].
    + intros _ _. exists [w], ws. split; [done|].
      replace k with 15%nat by lia. simpl. f_equal. lia.
    + intros Hov Hs'.
      destruct (IH (S k) (accepted w s) s') as (sq & post & -> & Hsq);
        try done.
      * simpl. unfold wrap32. rewrite Z.mod_small; lia.
      * lia.
      * exists (w :: sq), post. split; [done|].
        replace (16 - k)%nat with (S (16 - S k)) by lia.
        simpl. f_equal; [lia|done].
  - rewrite ScanFacts.body_mismatch by auto. by intros [= <-].
Qed.

Lemma over_idle_success ws : forall s s',
  Forall (fun w => packet_cmd w = 5) ws ->
  data_start s = false ->
  success s = false ->
  expected_addr s = 0 ->
  over ws s = Break s' ->
  success s' = true ->
  exists pre sq post,
    ws = pre ++ sq ++ post /\
    Forall (fun w => packet_addr w <> 0) pre /\
    map packet_addr sq = sequence_addrs.
Proof.
  induction ws as [|w ws IH]; intros s s' Hcmd Hst Hsu He; cbn [over];
    [done|].
  apply Forall_cons in Hcmd as [Hc Hcmd].
  destruct (Z.eq_dec (packet_addr w) 0) as [H0|H0].
  - rewrite ScanFacts.body_accept by (auto; lia).
    rewrite H0. cbn [Z.eqb]. intros Hov Hs'.
    destruct (over_started_success ws 1 (accepted w s) s')
      as (sq & post & -> & Hsq); try done.
    + simpl. by rewrite He.
    + lia.
    + exists [], (w :: sq), post. repeat split; [constructor|].
      simpl. rewrite H0, Hsq. done.
  - rewrite ScanFacts.body_idle by tauto. intros Hov Hs'.
    destruct (IH s s') as (pre & sq & post & -> & Hpre & Hsq); try done.
    exists (w :: pre), sq, post. repeat split; [by constructor|done].
Qed.

(** The values stored for a full sequence are the masked words. *)
Lemma stored_sequence ws :
  map packet_addr ws = sequence_addrs ->
  map (fun w => stored (packet_addr w) w) ws = masked ws.
Proof.
  intros Hadr. unfold masked.
  rewrite <- (take_drop 8 ws) at 1. rewrite map_app. f_equal.
  - apply (f_equal (take 8)) in Hadr. rewrite firstn_map in Hadr.
    revert Hadr. generalize (take 8 ws). intros l Hl.
    do 9 (destruct l as [|? l]; [try done|]); [|done].
    unfold sequence_addrs in Hl. simpl in Hl. cbn [map].
    injection Hl as -> -> -> -> -> -> -> ->. done.
  - apply (f_equal (drop 8)) in Hadr. rewrite skipn_map in Hadr.
    revert Hadr. generalize (drop 8 ws). intros l Hl.
    do 9 (destruct l as [|? l]; [try done|]); [|done].
    unfold sequence_addrs in Hl. simpl in Hl. cbn [map].
    injection Hl as -> -> -> -> -> -> -> ->. done.
Qed.

Lemma write_words_all rb :
  Forall (fun w => packet_cmd w = 5) (write_words rb).
Proof.
  apply Forall_forall. intros w Hw.
  by apply list_elem_of_filter in Hw as [? _].
Qed.

(** A full sequence met by a scan that has not started is extracted. *)
Lemma process_sequence rb db pre ws post :
  length rb = BUFFER_SIZE ->
  length db = 16%nat ->
  write_words rb = pre ++ ws ++ post ->
  map packet_addr ws = sequence_addrs ->
  Forall (fun w => packet_addr w <> 0) pre ->
  process_data_buffer rb db = (true, masked ws).
Proof.
  intros Hrb Hdb Hww Hadr Hpre. unfold process_data_buffer.
  rewrite (ScanFacts.final_all_over _ _ Hrb), ScanFacts.over_write_words, Hww.
  rewrite ScanFacts.over_app, (ScanFacts.over_idle pre) by done.
  pose proof (write_words_all rb) as Hcmd. rewrite Hww in Hcmd.
  apply Forall_app in Hcmd as [_ Hcmd]. apply Forall_app in Hcmd as [Hcmd _].
  destruct (ScanFacts.over_sequence ws post db (init db))
    as (s' & Hov & Hok & Hbuf); try done.
  rewrite Hov. cbn [flow_state]. by rewrite Hok, Hbuf, stored_sequence.
Qed.

(** ** What a scan leaves in the data buffer *)

Lemma counted_length s :
  counted s -> length (writes s) = Z.to_nat (data_idx s).
Proof.
  intros (_ & _ & _ & Hw).
  by rewrite <- (length_map fst), Hw, length_map, length_seq.
Qed.

Lemma accepted_framed db0 w s :
  length db0 = 16%nat ->
  counted s ->
  framed db0 s ->
  framed db0 (accepted w s).
Proof.
  intros Hlen Hc Hf. pose proof (counted_length s Hc) as Hn.
  destruct Hc as (_ & Hi & _ & _).
  unfold framed, accepted in *. cbn [data_buffer writes].
  rewrite Hf, <- Hn. rewrite insert_app_r_alt by (by rewrite length_map).
  rewrite length_map, Nat.sub_diag, map_app, length_app, <- app_assoc.
  f_equal. cbn [map snd length app].
  destruct (lookup_lt_is_Some_2 db0 (length (writes s))) as [x Hx]; [lia|].
  rewrite (drop_S _ _ _ Hx), Nat.add_1_r. done.
Qed.

Lemma slots_framed db0 rb n : forall i s,
  length db0 = 16%nat ->
  counted s ->
  framed db0 s ->
  framed db0 (final (slots rb n i s)).
Proof.
  induction n as [|n IH]; intros i s Hlen Hc Hf; cbn [slots final]; [done|].
  pose proof (ScanFacts.body_counted (nth i rb 0) s Hc) as Hb.
  destruct (body_cases (nth i rb 0) s)
    as [E|[E|[E|[(_ & _ & _ & E)|(_ & _ & _ & E)]]]];
    rewrite E in Hb |- *; cbn [final]; try done.
  - by apply IH.
  - apply IH; [done|done|]. by apply accepted_framed.
  - by apply (accepted_framed db0).
Qed.

(** A scan that succeeds has made sixteen stores. *)
Lemma success_length rb db :
  success (final (all rb db)) = true ->
  length (writes (final (all rb db))) = 16%nat.
Proof.
  intros Hs.
  destruct (ScanFacts.slots_settled rb BUFFER_SIZE 0 (init db)
              (ScanFacts.counted_init db)) as (n & _ & Hw & Hn).
  fold (upto rb db BUFFER_SIZE) in Hw, Hn. fold (all rb db) in Hw, Hn.
  rewrite <- (length_map fst), Hw, length_map, length_seq. by apply Hn.
Qed.

(** ** The data buffer does not steer the scan *)

Lemma body_forget w s1 s2 :
  forget s1 = forget s2 ->
  flow_map forget (body w s1) = flow_map forget (body w s2).
Proof.
  destruct s1 as [e1 st1 i1 su1 db1 wr1], s2 as [e2 st2 i2 su2 db2 wr2].
  unfold forget. cbn. intros [= -> -> -> -> ->].
  unfold body. cbn.
  destruct (packet_cmd w =? 5); [|done].
  destruct (packet_addr w =? 0), st2; cbn; try done.
  all: destruct (packet_addr w =? e2); cbn; try done.
  all: by destruct (packet_addr w =? 30).
Qed.

Lemma slots_forget rb n : forall i s1 s2,
  forget s1 = forget s2 ->
  run_map forget (slots rb n i s1) = run_map forget (slots rb n i s2).
Proof.
  induction n as [|n IH]; intros i s1 s2 Hs; cbn [slots run_map].
  - by rewrite Hs.
  - pose proof (body_forget (nth i rb 0) s1 s2 Hs) as Hb.
    destruct (body (nth i rb 0) s1), (body (nth i rb 0) s2);
      cbn [flow_map] in Hb; try done.
    + apply IH. congruence.
    + cbn [run_map]. congruence.
Qed.

Lemma all_forget rb db1 db2 :
  run_map forget (all rb db1) = run_map forget (all rb db2).
Proof. by apply slots_forget. Qed.

Lemma run_forget_final r1 r2 :
  run_map forget r1 = run_map forget r2 ->
  success (final r1) = success (final r2) /\
  writes (final r1) = writes (final r2) /\
  match r1, r2 with
  | Running _, Running _ => True
  | Stopped _ i, Stopped _ j => i = j
  | _, _ => False
  end.
Proof.
  destruct r1 as [s1|s1 i], r2 as [s2|s2 j]; cbn; try done.
  - by intros [= _ _ _ -> ->].
  - by intros [= _ _ _ -> -> ->].
Qed.

Lemma flag_any_buffer rb db1 db2 :
  fst (process_data_buffer rb db1) = fst (process_data_buffer rb db2).
Proof.
  unfold process_data_buffer. cbn [fst].
  by destruct (run_forget_final _ _ (all_forget rb db1 db2)) as (-> & _).
Qed.

Lemma trace_any_buffer rb db1 db2 : trace rb db1 = trace rb db2.
Proof.
  unfold trace.
  by destruct (run_forget_final _ _ (all_forget rb db1 db2)) as (_ & -> & _).
Qed.

(** On success all sixteen slots were stored to: the buffer left is the
    list of stored values. *)
Lemma success_buffer rb db d :
  length db = 16%nat ->
  process_data_buffer rb db = (true, d) ->
  d = map snd (trace rb db).
Proof.
  intros Hlen Hp. unfold process_data_buffer in Hp. injection Hp as Hs Hd.
  pose proof (success_length rb db Hs) as Hn.
  pose proof (slots_framed db rb BUFFER_SIZE 0 (init db) Hlen
                (ScanFacts.counted_init db)) as Hf.
  unfold framed in Hf. fold (upto rb db BUFFER_SIZE) in Hf.
  fold (all rb db) in Hf. rewrite Hd, Hn in Hf.
  rewrite Hf by (cbn; by rewrite drop_0).
  rewrite drop_ge by lia. by rewrite app_nil_r.
Qed.

Lemma success_any_buffer rb db1 db2 d :
  length db1 = 16%nat ->
  length db2 = 16%nat ->
  process_data_buffer rb db1 = (true, d) ->
  process_data_buffer rb db2 = (true, d).
Proof.
  intros H1 H2 Hp.
  destruct (process_data_buffer rb db2) as [ok d2] eqn:Hp2.
  assert (ok = true) as ->.
  { pose proof (flag_any_buffer rb db1 db2) as E.
    by rewrite Hp, Hp2 in E. }
  f_equal.
  rewrite (success_buffer rb db1 d H1 Hp), (success_buffer rb db2 d2 H2 Hp2).
  by rewrite (trace_any_buffer rb db1 db2).
Qed.

Lemma success_buffer_length rb db d :
  length db = 16%nat ->
  process_data_buffer rb db = (true, d) ->
  length d = 16%nat.
Proof.
  intros Hlen Hp. rewrite (success_buffer rb db d Hlen Hp), length_map.
  apply success_length. unfold process_data_buffer in Hp. by injection Hp.
Qed.

End ScanMore.

(** * The packet validator: further statements *)

(** X1.  [process_data_buffer] returns true only on a ring whose command-5
    words, in slot order, are some words none of which has address 0, then
    sixteen words with addresses 0, 2, ..., 30, then any others; the data
    buffer it leaves (of sixteen slots) holds those sixteen words, masked. *)
Theorem success_only_on_sequence (rb db db' : list Z) :
  length rb = BUFFER_SIZE ->
  length db = 16%nat ->
  process_data_buffer rb db = (true, db') ->
  exists pre ws post,
    write_words rb = pre ++ ws ++ post /\
    Forall (fun w => packet_addr w <> 0) pre /\
    map packet_addr ws = sequence_addrs /\
    db' = masked ws.
Proof.
  intros Hrb Hdb Hp.
  assert (Scan.success (Scan.flow_state
            (Scan.over (write_words rb) (Scan.init db))) = true) as Hs.
  { rewrite <- ScanFacts.over_write_words, <- ScanFacts.final_all_over by done.
    unfold process_data_buffer in Hp. by injection Hp. }
  destruct (Scan.over (write_words rb) (Scan.init db)) as [s'|s'] eqn:Hov;
    cbn [Scan.flow_state] in Hs.
  - by rewrite (ScanMore.over_continue_success _ _ _ Hov) in Hs.
  - destruct (ScanMore.over_idle_success (write_words rb) (Scan.init db) s')
      as (pre & ws & post & Hww & Hpre & Hsq);
      [apply ScanMore.write_words_all|done..|].
    exists pre, ws, post. repeat split; try done.
    rewrite (ScanMore.process_sequence rb db pre ws post) in Hp by done.
    by injection Hp.
Qed.

Lemma success_only_on_sequence_witness :
  exists pre ws post,
    write_words capture_a = pre ++ ws ++ post /\
    Forall (fun w => packet_addr w <> 0) pre /\
    map packet_addr ws = sequence_addrs /\
    digits_a = masked ws.
Proof.
  apply (success_only_on_sequence capture_a data_buffer_init digits_a).
  - reflexivity.
  - reflexivity.
  - vm_compute. reflexivity.
Defined.

(** X2.  Whether it succeeds or fails, [process_data_buffer] leaves in a
    16-slot [data_buffer] the values it stored, in order, followed by the
    old content of the slots it did not store to: a failed scan overwrites
    the first slots and keeps the rest. *)
Theorem partial_extraction (rb db : list Z) :
  length db = 16%nat ->
  snd (process_data_buffer rb db)
  = map snd (Scan.trace rb db) ++ drop (length (Scan.trace rb db)) db.
Proof.
  intros Hlen. unfold process_data_buffer, Scan.trace, Scan.all, Scan.upto.
  cbn [snd].
  apply (ScanMore.slots_framed db rb BUFFER_SIZE 0 (Scan.init db) Hlen).
  - apply ScanFacts.counted_init.
  - unfold framed. cbn. by rewrite drop_0.
Qed.

Lemma partial_extraction_witness :
  snd (process_data_buffer capture_gap digits_b)
  = [117; 5] ++ drop 2 digits_b.
Proof. apply (partial_extraction capture_gap digits_b). reflexivity. Defined.

(** X3.  The content of [data_buffer] on entry has no influence on the
    scan: the flag returned, the stores made and the slot at which the scan
    ends are the same from any two data buffers. *)
Theorem scan_ignores_data_buffer (rb db1 db2 : list Z) :
  fst (process_data_buffer rb db1) = fst (process_data_buffer rb db2) /\
  Scan.trace rb db1 = Scan.trace rb db2 /\
  Scan.stop_index rb db1 = Scan.stop_index rb db2.
Proof.
  split; [apply ScanMore.flag_any_buffer|].
  split; [apply ScanMore.trace_any_buffer|].
  unfold Scan.stop_index.
  destruct (ScanMore.run_forget_final _ _ (ScanMore.all_forget rb db1 db2))
    as (_ & _ & H).
  by destruct (Scan.all rb db1), (Scan.all rb db2).
Qed.

(** X4.  A successful extraction overwrites all sixteen slots, so it leaves
    the same [data_buffer] whatever the buffer held before; scanning the
    same ring again, as each accessor does, gives the same result. *)
Theorem rescan_same_snapshot (rb db db2 d : list Z) :
  length db = 16%nat ->
  length db2 = 16%nat ->
  process_data_buffer rb db = (true, d) ->
  process_data_buffer rb db2 = (true, d) /\
  process_data_buffer rb d = (true, d).
Proof.
  intros H1 H2 Hp. split.
  - by apply (ScanMore.success_any_buffer rb db db2).
  - apply (ScanMore.success_any_buffer rb db d); try done.
    by apply (ScanMore.success_buffer_length rb db).
Qed.

Lemma rescan_same_snapshot_witness :
  process_data_buffer capture_a digits_b = (true, digits_a) /\
  process_data_buffer capture_a digits_a = (true, digits_a).
Proof.
  apply (rescan_same_snapshot capture_a data_buffer_init digits_b digits_a).
  - reflexivity.
  - reflexivity.
  - vm_compute. reflexivity.
Defined.

(** * Further properties of the digit decoder *)

Module DecodeMore.

(** The accessors after a failed extraction. *)
Lemma get_voltage_fail rb db :
  fst (process_data_buffer rb db) = false ->
  get_voltage rb db = ((-1)%Q, snd (process_data_buffer rb db)).
Proof.
  unfold get_voltage. destruct (process_data_buffer rb db) as [ok d].
  cbn [fst snd]. by intros ->.
Qed.

Lemma get_current_fail rb db :
  fst (process_data_buffer rb db) = false ->
  get_current rb db = ((-1)%Q, snd (process_data_buffer rb db)).
Proof.
  unfold get_current. destruct (process_data_buffer rb db) as [ok d].
  cbn [fst snd]. by intros ->.
Qed.

Lemma get_power_fail rb db :
  fst (process_data_buffer rb db) = false ->
  get_power rb db = ((-1)%Q, snd (process_data_buffer rb db)).
Proof.
  unfold get_power. destruct (process_data_buffer rb db) as [ok d].
  cbn [fst snd]. by intros ->.
Qed.

Lemma get_energy_fail rb db :
  fst (process_data_buffer rb db) = false ->
  get_energy rb db = (-1, snd (process_data_buffer rb db)).
Proof.
  unfold get_energy. destruct (process_data_buffer rb db) as [ok d].
  cbn [fst snd]. by intros ->.
Qed.



Lemma energy_of_range db : 0 <= energy_of db <= 9999000.
Proof.
  rewrite DecodeFacts.energy_of_digits.
  pose proof (DecodeFacts.four_digits_range data_digit_lut_2
                (Z.shiftr (nth 12 db 0) 1) (Z.shiftr (nth 13 db 0) 1)
                (Z.shiftr (nth 14 db 0) 1) (Z.shiftr (nth 15 db 0) 1)
                DecodeFacts.lut_2_ok).
  destruct (Z.testbit (nth 15 db 0) 0); lia.
Qed.

(** One pass of [loop] on an unchanged ring. *)
Lemma report_snapshot rb db :
  length db = 16%nat ->
  report rb db
  = let d := snd (process_data_buffer rb db) in
    if fst (process_data_buffer rb db)
    then (voltage_of d, current_of d, power_of d, energy_of d)
    else ((-1)%Q, (-1)%Q, (-1)%Q, -1).
Proof.
  intros Hlen. cbv zeta. unfold report.
  destruct (process_data_buffer rb db) as [[|] d] eqn:Hp; cbn [fst snd].
  - assert (process_data_buffer rb d = (true, d)) as Hd.
    { apply (ScanMore.success_any_buffer rb db d); try done.
      by apply (ScanMore.success_buffer_length rb db). }
    rewrite (DecodeFacts.get_voltage_ok _ _ _ Hp),
      (DecodeFacts.get_current_ok _ _ _ Hd),
      (DecodeFacts.get_power_ok _ _ _ Hd),
      (DecodeFacts.get_energy_ok _ _ _ Hd).
    done.
  - assert (forall db', fst (process_data_buffer rb db') = false) as Hf.
    { intros db'. rewrite (ScanMore.flag_any_buffer rb db' db). by rewrite Hp. }
    rewrite (get_voltage_fail rb db) by apply Hf.
    rewrite (get_current_fail rb _) by apply Hf.
    rewrite (get_power_fail rb _) by apply Hf.
    rewrite (get_energy_fail rb _) by apply Hf.
    done.
Qed.

End DecodeMore.

(** * The digit decoder: further statements *)

(** X5.  One pass of [loop] over an unchanged ring, from a 16-slot
    [data_buffer]: either every accessor returns its sentinel, or the four
    values are decoded from one and the same data buffer, the one the first
    extraction left. *)
Theorem report_one_snapshot (rb db : list Z) :
  length db = 16%nat ->
  report rb db
  = let d := snd (process_data_buffer rb db) in
    if fst (process_data_buffer rb db)
    then (voltage_of d, current_of d, power_of d, energy_of d)
    else ((-1)%Q, (-1)%Q, (-1)%Q, -1).
Proof. apply DecodeMore.report_snapshot. Qed.

Lemma report_one_snapshot_witness :
  report capture_gap digits_b = ((-1)%Q, (-1)%Q, (-1)%Q, -1) /\
  report capture_a digits_b
  = (voltage_of digits_a, current_of digits_a, power_of digits_a,
     energy_of digits_a).
Proof.
  split.
  - apply (report_one_snapshot capture_gap digits_b). reflexivity.
  - apply (report_one_snapshot capture_a digits_b). reflexivity.
Defined.

(** X6.  What the accessors can return: [get_voltage] and [get_current]
    return -1.0 or a value from 0 to 99.99, [get_power] returns -1.0 or a
    value from 0 to 9999, and [get_energy] returns -1 or a value from 0 to
    9999000 (the accumulator never wraps and the result is never negative
    otherwise). *)
Theorem accessor_ranges (rb db : list Z) :
  (fst (get_voltage rb db) = (-1)%Q \/
   (0 <= fst (get_voltage rb db) <= 9999 # 100)%Q) /\
  (fst (get_current rb db) = (-1)%Q \/
   (0 <= fst (get_current rb db) <= 9999 # 100)%Q) /\
  (fst (get_power rb db) = (-1)%Q \/
   (0 <= fst (get_power rb db) <= 9999 # 1)%Q) /\
  (fst (get_energy rb db) = -1 \/
   0 <= fst (get_energy rb db) <= 9999000).
Proof.
  unfold get_voltage, get_current, get_power, get_energy.
  destruct (process_data_buffer rb db) as [[|] d]; cbn [negb fst].
  - split; [right; apply DecodeFacts.voltage_of_range|].
    split; [right; apply DecodeFacts.current_of_range|].
    split; [right; apply DecodeFacts.power_of_range|].
    right; apply DecodeMore.energy_of_range.
  - repeat split; by left.
Qed.





(** * Further properties of the bit sampler *)

Module SamplerMore.
Import Sampler.

Lemma steps_app s es1 es2 :
  steps s (es1 ++ es2)
  = match steps s es1 with
    | Some s' => steps s' es2
    | None => None
    end.
Proof.
  revert s; induction es1 as [|e es1 IH]; intros s; cbn [steps app]; [done|].
  by destruct (step s e).
Qed.

(** The OR of two numbers below a power of two is below it. *)
Lemma lor_below a b n :
  0 <= a < 2 ^ n -> 0 <= b < 2 ^ n -> 0 <= Z.lor a b < 2 ^ n.
Proof.
  intros Ha Hb. split; [apply Z.lor_nonneg; lia|].
  destruct (Z.eq_dec a 0) as [->|Ha0]; [rewrite Z.lor_0_l; lia|].
  destruct (Z.eq_dec b 0) as [->|Hb0]; [rewrite Z.lor_0_r; lia|].
  assert (0 < Z.lor a b) as Hpos.
  { assert (0 <= Z.lor a b) by (apply Z.lor_nonneg; lia).
    assert (Z.lor a b <> 0) by (rewrite Z.lor_eq_0_iff; lia). lia. }
  apply Z.log2_lt_pow2; [done|].
  rewrite Z.log2_lor by lia.
  apply Z.max_lub_lt; apply Z.log2_lt_pow2; lia.
Qed.

Lemma nth_ring_word rb k :
  Forall (fun w => 0 <= w < 2 ^ 17) rb -> 0 <= nth k rb 0 < 2 ^ 17.
Proof.
  intros Hrb. destruct (nth_lookup_or_length rb k 0) as [Hk|Hk].
  - by apply (Forall_lookup_1 _ _ _ _ Hrb Hk).
  - rewrite nth_overflow by lia. lia.
Qed.

(** Every handler keeps the ring well formed. *)
Lemma step_ring_ok s e s' : ring_ok s -> step s e = Some s' -> ring_ok s'.
Proof.
  intros (Hlen & Hidx & Hrd & Hrb).
  destruct e as [[|]|data]; cbn [step];
    unfold ring_ok, select_isr, clock_isr;
    change (Z.of_nat BUFFER_SIZE) with 32 in *; unfold BUFFER_SIZE in *.
  - (* chip-select high *)
    intros [= <-]. unfold wrap8.
    cbn [negb read_buffer buffer_idx read_digit].
    rewrite Z.mod_small by lia.
    repeat split; try done; destruct (Z.leb_spec 32 (buffer_idx s + 1)); lia.
  - (* chip-select low *)
    intros [= <-].
    cbn [negb read_buffer buffer_idx read_digit].
    rewrite length_insert. repeat split; try done; try lia.
    apply Forall_insert; [done|lia].
  - (* clock edge *)
    destruct (clk_attached s); [|by intros [= <-]].
    unfold shl_int.
    destruct (Z.leb_spec 0 (16 - read_digit s)); [|done].
    destruct (Z.ltb_spec (16 - read_digit s) 32); [|done].
    destruct (Z.ltb_spec (Z.shiftl (Z.b2z data) (16 - read_digit s)) (2 ^ 31));
      [|done].
    cbn [andb]. intros [= <-]. unfold wrap8.
    cbn [read_buffer buffer_idx read_digit].
    rewrite length_insert. repeat split; try done; try lia.
    + apply Z.mod_pos_bound. lia.
    + apply Forall_insert; [done|].
      apply lor_below; [by apply nth_ring_word|].
      rewrite Z.shiftl_mul_pow2 by lia.
      assert (0 < 2 ^ (16 - read_digit s)) by (apply Z.pow_pos_nonneg; lia).
      assert (2 ^ (16 - read_digit s) <= 2 ^ 16)
        by (apply Z.pow_le_mono_r; lia).
      destruct data; cbn [Z.b2z]; lia.
Qed.

Lemma steps_ring_ok es : forall s s',
  ring_ok s -> steps s es = Some s' -> ring_ok s'.
Proof.
  induction es as [|e es IH]; intros s s' Hok; cbn [steps].
  - by intros [= <-].
  - destruct (step s e) as [s1|] eqn:E; [|done].
    apply IH. by apply (step_ring_ok s e).
Qed.

(** ** One transaction *)

Lemma cursor_after_1 c :
  0 <= c < 32 ->
  (if Z.of_nat BUFFER_SIZE <=? wrap8 (c + 1) then 0 else wrap8 (c + 1))
  = cursor_after c 1.
Proof.
  intros Hc. unfold cursor_after, wrap8.
  change (Z.of_nat BUFFER_SIZE) with 32. change (Z.of_nat 1) with 1.
  rewrite (Z.mod_small (c + 1) (2 ^ 8)) by lia.
  destruct (Z.leb_spec 32 (c + 1)).
  - replace (c + 1) with 32 by lia. done.
  - by rewrite Z.mod_small by lia.
Qed.

Lemma cursor_after_range c n : 0 <= cursor_after c n < 32.
Proof. unfold cursor_after. apply Z.mod_pos_bound. done. Qed.

Lemma cursor_after_S c n :
  cursor_after (cursor_after c 1) n = cursor_after c (S n).
Proof.
  unfold cursor_after. change (Z.of_nat BUFFER_SIZE) with 32.
  rewrite Z.add_mod_idemp_l by lia. f_equal. lia.
Qed.

Lemma cursor_after_0 c : 0 <= c < 32 -> cursor_after c 0 = c.
Proof.
  intros Hc. unfold cursor_after. change (Z.of_nat BUFFER_SIZE) with 32.
  rewrite Z.add_0_r. by apply Z.mod_small.
Qed.

Lemma steps_transaction s bs :
  length (read_buffer s) = BUFFER_SIZE ->
  0 <= buffer_idx s < 32 ->
  (length bs <= 17)%nat ->
  steps s (transaction bs)
  = Some (mk (<[Z.to_nat (buffer_idx s) := or_shifted 0 bs]> (read_buffer s))
             (cursor_after (buffer_idx s) 1) (Z.of_nat (length bs)) false).
Proof.
  intros Hlen Hidx Hn. unfold transaction, BUFFER_SIZE in *.
  rewrite steps_app, SamplerFacts.steps_asserted by lia.
  cbn [steps step select_isr negb read_buffer buffer_idx read_digit].
  by rewrite cursor_after_1.
Qed.

(** An eighteenth edge finds the bit position at 17. *)
Lemma steps_asserted_18 s bs b :
  length (read_buffer s) = BUFFER_SIZE ->
  0 <= buffer_idx s < 32 ->
  length bs = 17%nat ->
  steps s (asserted (bs ++ [b])) = None.
Proof.
  intros Hlen Hidx Hn. unfold BUFFER_SIZE in *.
  replace (asserted (bs ++ [b])) with (asserted bs ++ [CLK b])
    by (unfold asserted; by rewrite map_app).
  rewrite steps_app, SamplerFacts.steps_asserted by lia.
  cbn [steps step clk_attached]. unfold clock_isr.
  cbn [read_digit]. by rewrite Hn.
Qed.

Lemma steps_none_app s es1 es2 :
  steps s es1 = None -> steps s (es1 ++ es2) = None.
Proof. intros H. by rewrite steps_app, H. Qed.

(** ** Words sent bit 16 first *)

Lemma nth_msb_first w i :
  (i < 17)%nat -> nth i (msb_first w) false = Z.testbit w (16 - Z.of_nat i).
Proof.
  intros Hi. unfold msb_first.
  rewrite (nth_indep _ false (Z.testbit w (16 - Z.of_nat 0)))
    by (by rewrite length_map, length_seq).
  rewrite (map_nth (fun i => Z.testbit w (16 - Z.of_nat i))).
  by rewrite seq_nth.
Qed.

Lemma or_shifted_msb_first w :
  0 <= w < 2 ^ 17 -> or_shifted 0 (msb_first w) = w.
Proof.
  intros Hw. apply Z.bits_inj'. intros n Hn.
  rewrite SamplerFacts.testbit_or_shifted by (done || cbn; lia).
  destruct (decide (n <= 16 - 0)) as [Hle|Hgt].
  - rewrite nth_msb_first by lia. f_equal. lia.
  - symmetry. destruct (Z.eq_dec w 0) as [->|Hw0]; [apply Z.bits_0|].
    apply Z.bits_above_log2; [lia|].
    assert (Z.log2 w < 17) by (apply Z.log2_lt_pow2; lia). lia.
Qed.

End SamplerMore.

(** * The bit sampler: further statements *)

(** X9.  Whatever the pins do, as long as no shift is undefined the
    handlers keep the ring well formed: 32 words, each below 2^17, the
    cursor from 0 to 31 and the bit position not negative. *)
Theorem handlers_keep_ring (s s' : Sampler.state) (es : list Sampler.event) :
  ring_ok s ->
  Sampler.steps s es = Some s' ->
  ring_ok s'.
Proof. apply SamplerMore.steps_ring_ok. Qed.

Lemma handlers_keep_ring_witness :
  ring_ok (Sampler.mk (<[0%nat := 81920]> (repeat 0 BUFFER_SIZE)) 1 3 false).
Proof.
  apply (handlers_keep_ring Sampler.boot _
           [Sampler.CLK true; Sampler.CS false; Sampler.CLK true;
            Sampler.CLK false; Sampler.CLK true; Sampler.CS true;
            Sampler.CLK true]).
  - split; [reflexivity|]. unfold BUFFER_SIZE.
    split; [simpl; lia|]. split; [simpl; lia|].
    apply Forall_forall. intros w Hw%list_elem_of_In%repeat_spec. lia.
  - reflexivity.
Defined.

(** X10.  One bus transaction of at most 17 clock edges, from a cursor
    inside the 32-word ring: the captured word replaces the word under the
    cursor and no other, the cursor moves on by one and from 31 back to 0,
    and the clock handler is detached, so that clock edges arriving before
    chip-select goes low again change nothing. *)
Theorem transaction_effect
    (s : Sampler.state) (bs : list bool) (stray : list bool) :
  length (Sampler.read_buffer s) = BUFFER_SIZE ->
  0 <= Sampler.buffer_idx s < Z.of_nat BUFFER_SIZE ->
  (length bs <= 17)%nat ->
  exists s',
    Sampler.steps s (transaction bs) = Some s' /\
    Sampler.read_buffer s'
    = <[Z.to_nat (Sampler.buffer_idx s) := Sampler.or_shifted 0 bs]>
        (Sampler.read_buffer s) /\
    Sampler.buffer_idx s'
    = (if Sampler.buffer_idx s =? 31 then 0 else Sampler.buffer_idx s + 1) /\
    Sampler.steps s' (map Sampler.CLK stray) = Some s'.
Proof.
  intros Hlen Hidx Hn. change (Z.of_nat BUFFER_SIZE) with 32 in Hidx.
  rewrite SamplerMore.steps_transaction by done.
  eexists. split; [reflexivity|]. cbn [Sampler.read_buffer Sampler.buffer_idx].
  split; [done|]. split.
  - unfold cursor_after. change (Z.of_nat BUFFER_SIZE) with 32.
    change (Z.of_nat 1) with 1.
    destruct (Z.eqb_spec (Sampler.buffer_idx s) 31) as [->|Hne]; [done|].
    apply Z.mod_small. lia.
  - induction stray as [|b stray IH]; [done|].
    cbn [map Sampler.steps Sampler.step Sampler.clk_attached]. apply IH.
Qed.

Lemma transaction_effect_witness :
  exists s',
    Sampler.steps (Sampler.mk (repeat 0 BUFFER_SIZE) 31 0 false)
      (transaction (msb_first (packet 30 222))) = Some s' /\
    Sampler.read_buffer s'
    = <[31%nat := packet 30 222]> (repeat 0 BUFFER_SIZE) /\
    Sampler.buffer_idx s' = 0 /\
    Sampler.steps s' (map Sampler.CLK [true; true]) = Some s'.
Proof.
  destruct (transaction_effect
              (Sampler.mk (repeat 0 BUFFER_SIZE) 31 0 false)
              (msb_first (packet 30 222)) [true; true])
    as (s' & Hs & Hrb & Hidx & Hstray).
  - reflexivity.
  - unfold BUFFER_SIZE. simpl. lia.
  - vm_compute. lia.
  - exists s'. split; [exact Hs|]. split; [rewrite Hrb; reflexivity|].
    split; [exact Hidx | exact Hstray].
Defined.

(** X11.  An eighteenth rising clock edge within one asserted interval has
    no defined effect: [clock_isr] then shifts by 16 - 17, a negative
    count, and whatever follows is undefined too. *)
Theorem eighteenth_edge_undefined
    (s : Sampler.state) (bs : list bool) (es : list Sampler.event) :
  length (Sampler.read_buffer s) = BUFFER_SIZE ->
  0 <= Sampler.buffer_idx s < Z.of_nat BUFFER_SIZE ->
  (18 <= length bs)%nat ->
  Sampler.steps s (Sampler.asserted bs ++ es) = None.
Proof.
  intros Hlen Hidx Hn. change (Z.of_nat BUFFER_SIZE) with 32 in Hidx.
  apply SamplerMore.steps_none_app.
  rewrite <- (take_drop 18 bs).
  replace (Sampler.asserted (take 18 bs ++ drop 18 bs))
    with (Sampler.asserted (take 18 bs) ++ map Sampler.CLK (drop 18 bs))
    by (unfold Sampler.asserted; by rewrite map_app).
  apply SamplerMore.steps_none_app.
  assert (length (take 18 bs) = 18%nat) as H18 by (rewrite length_take; lia).
  rewrite <- (take_drop 17 (take 18 bs)).
  destruct (drop 17 (take 18 bs)) as [|b [|??]] eqn:Hd;
    apply (f_equal length) in Hd; rewrite length_drop, H18 in Hd;
    try discriminate.
  apply SamplerMore.steps_asserted_18; try done.
  rewrite length_take. lia.
Qed.

Lemma eighteenth_edge_undefined_witness :
  Sampler.steps Sampler.boot
    (Sampler.asserted (repeat true 18) ++ [Sampler.CS true]) = None.
Proof.
  apply (eighteenth_edge_undefined Sampler.boot (repeat true 18)).
  - reflexivity.
  - unfold BUFFER_SIZE. simpl. lia.
  - simpl. lia.
Defined.

(** X12.  Round trip of a word through the bus: when the seventeen bits of
    a word below 2^17 are clocked in, bit 16 first, within one transaction,
    the ring slot under the cursor holds that word. *)
Theorem word_round_trip (s : Sampler.state) (w : Z) :
  length (Sampler.read_buffer s) = BUFFER_SIZE ->
  0 <= Sampler.buffer_idx s < Z.of_nat BUFFER_SIZE ->
  0 <= w < 2 ^ 17 ->
  exists s',
    Sampler.steps s (transaction (msb_first w)) = Some s' /\
    nth (Z.to_nat (Sampler.buffer_idx s)) (Sampler.read_buffer s') 0 = w.
Proof.
  intros Hlen Hidx Hw. change (Z.of_nat BUFFER_SIZE) with 32 in Hidx.
  rewrite SamplerMore.steps_transaction by (done || cbn; lia).
  eexists. split; [reflexivity|]. cbn [Sampler.read_buffer].
  rewrite SamplerMore.or_shifted_msb_first by done.
  apply nth_lookup_Some, list_lookup_insert_eq.
  unfold BUFFER_SIZE in Hlen. lia.
Qed.

Lemma word_round_trip_witness :
  exists s',
    Sampler.steps Sampler.boot (transaction (msb_first (packet 4 83)))
    = Some s' /\
    nth 0 (Sampler.read_buffer s') 0 = packet 4 83.
Proof.
  apply (word_round_trip Sampler.boot (packet 4 83)).
  - reflexivity.
  - unfold BUFFER_SIZE. simpl. lia.
  - vm_compute. split; [discriminate|reflexivity].
Defined.

(** * The ring over several transactions *)

Module RingMore.
Import Sampler.

(** After [n] transactions: the cursor, the slots written (the last 32
    transactions survive), and the slots not written. *)
Lemma steps_transactions bss : forall s,
  length (read_buffer s) = BUFFER_SIZE ->
  0 <= buffer_idx s < 32 ->
  Forall (fun bs => (length bs <= 17)%nat) bss ->
  exists s',
    steps s (transactions bss) = Some s' /\
    length (read_buffer s') = BUFFER_SIZE /\
    buffer_idx s' = cursor_after (buffer_idx s) (length bss) /\
    (forall j, (j < length bss)%nat -> (length bss <= j + 32)%nat ->
       nth (Z.to_nat (cursor_after (buffer_idx s) j)) (read_buffer s') 0
       = or_shifted 0 (nth j bss [])) /\
    (forall k,
       (forall j, (j < length bss)%nat ->
                  Z.to_nat (cursor_after (buffer_idx s) j) <> k) ->
       nth k (read_buffer s') 0 = nth k (read_buffer s) 0).
Proof.
  induction bss as [|bs bss IH]; intros s Hlen Hidx Hbss.
  - exists s. cbn [transactions flat_map steps length].
    rewrite SamplerMore.cursor_after_0 by done.
    repeat split; try done. intros j Hj. lia.
  - apply Forall_cons in Hbss as [Hbs Hbss].
    cbn [transactions flat_map]. fold (transactions bss).
    rewrite SamplerMore.steps_app, SamplerMore.steps_transaction by done.
    set (s1 := mk _ _ _ _).
    destruct (IH s1) as (s' & Hs & Hlen' & Hcur & Hnew & Hold).
    { subst s1. cbn [read_buffer]. by rewrite length_insert. }
    { subst s1. cbn [buffer_idx]. apply SamplerMore.cursor_after_range. }
    { done. }
    subst s1. cbn [read_buffer buffer_idx] in *.
    exists s'. split; [done|]. split; [done|].
    unfold BUFFER_SIZE in Hlen.
    split; [|split].
    + by rewrite Hcur, SamplerMore.cursor_after_S.
    + intros [|j] Hj Hwrap; cbn [length nth] in *.
      * rewrite SamplerMore.cursor_after_0 by done.
        rewrite Hold.
        { apply nth_lookup_Some, list_lookup_insert_eq. lia. }
        intros j Hj'. rewrite SamplerMore.cursor_after_S.
        unfold cursor_after. change (Z.of_nat BUFFER_SIZE) with 32.
        pose proof (Z.mod_pos_bound (buffer_idx s + Z.of_nat (S j)) 32).
        intros E. apply Z2Nat.inj in E; [|lia|lia].
        revert E. Z.div_mod_to_equations. lia.
      * rewrite <- SamplerMore.cursor_after_S. apply Hnew; lia.
    + intros k Hk. rewrite Hold.
      * rewrite !nth_lookup, list_lookup_insert_ne; [done|].
        specialize (Hk 0%nat). cbn [length] in Hk.
        rewrite SamplerMore.cursor_after_0 in Hk by done. apply Hk. lia.
      * intros j Hj. rewrite SamplerMore.cursor_after_S. apply Hk.
        cbn [length]. lia.
Qed.

End RingMore.

(** X13.  The ring as a history.  After n transactions of at most 17 edges
    each, started with the cursor at c, the cursor is at (c + n) mod 32,
    the slot (c + j) mod 32 holds the word of the j-th transaction for each
    of the last 32 transactions (an older word has been overwritten), and a
    slot no transaction wrote to holds what it held before. *)
Theorem ring_history (s : Sampler.state) (bss : list (list bool)) :
  length (Sampler.read_buffer s) = BUFFER_SIZE ->
  0 <= Sampler.buffer_idx s < Z.of_nat BUFFER_SIZE ->
  Forall (fun bs => (length bs <= 17)%nat) bss ->
  exists s',
    Sampler.steps s (transactions bss) = Some s' /\
    Sampler.buffer_idx s' = cursor_after (Sampler.buffer_idx s) (length bss) /\
    (forall j, (j < length bss)%nat -> (length bss <= j + 32)%nat ->
       nth (Z.to_nat (cursor_after (Sampler.buffer_idx s) j))
           (Sampler.read_buffer s') 0
       = Sampler.or_shifted 0 (nth j bss [])) /\
    (forall k,
       (forall j, (j < length bss)%nat ->
                  Z.to_nat (cursor_after (Sampler.buffer_idx s) j) <> k) ->
       nth k (Sampler.read_buffer s') 0 = nth k (Sampler.read_buffer s) 0).
Proof.
  intros Hlen Hidx Hbss. change (Z.of_nat BUFFER_SIZE) with 32 in Hidx.
  destruct (RingMore.steps_transactions bss s Hlen Hidx Hbss)
    as (s' & Hs & _ & Hcur & Hnew & Hold).
  by exists s'.
Qed.

Lemma ring_history_witness :
  exists s',
    Sampler.steps Sampler.boot (transactions (repeat (msb_first 5) 33))
    = Some s' /\
    Sampler.buffer_idx s' = 1.
Proof.
  destruct (ring_history Sampler.boot (repeat (msb_first 5) 33))
    as (s' & Hs & Hcur & _).
  - reflexivity.
  - unfold BUFFER_SIZE. simpl. lia.
  - apply Forall_forall. intros bs ->%list_elem_of_In%repeat_spec.
    simpl. lia.
  - exists s'. split; [exact Hs|]. rewrite Hcur. reflexivity.
Defined.

(** * From the bus to the decoded values *)

Module PacketFacts.

Lemma land_shiftl_low a d k :
  0 <= k -> 0 <= d < 2 ^ k -> Z.land (Z.shiftl a k) d = 0.
Proof.
  intros Hk Hd. apply Z.bits_inj'. intros n Hn.
  rewrite Z.land_spec, Z.bits_0.
  destruct (Z.lt_ge_cases n k) as [Hlt|Hge].
  - by rewrite Z.shiftl_spec_low.
  - destruct (Z.eq_dec d 0) as [->|Hd0];
      [by rewrite Z.bits_0, andb_false_r|].
    rewrite (Z.bits_above_log2 d n), andb_false_r; [done|lia|].
    assert (Z.log2 d < k) by (apply Z.log2_lt_pow2; lia). lia.
Qed.

Lemma lor_shiftl_low a d k :
  0 <= k -> 0 <= d < 2 ^ k -> Z.lor (Z.shiftl a k) d = a * 2 ^ k + d.
Proof.
  intros Hk Hd. pose proof (land_shiftl_low a d k Hk Hd) as H0.
  rewrite <- Z.lxor_lor, <- Z.add_nocarry_lxor by done.
  by rewrite Z.shiftl_mul_pow2.
Qed.

(** A packet as a sum of its three fields. *)
Lemma packet_sum a d :
  0 <= a < 64 -> 0 <= d < 256 -> packet a d = 81920 + 256 * a + d.
Proof.
  intros Ha Hd. unfold packet.
  rewrite (lor_shiftl_low a d 8) by lia.
  rewrite (lor_shiftl_low 5 (a * 2 ^ 8 + d) 14) by lia.
  lia.
Qed.

Lemma packet_cmd_packet a d :
  0 <= a < 64 -> 0 <= d < 256 -> packet_cmd (packet a d) = 5.
Proof.
  intros Ha Hd. unfold packet_cmd. rewrite Z.shiftr_land, packet_sum by done.
  change (Z.shiftr 0x0001C000 14) with (Z.ones 3).
  rewrite Z.land_ones, Z.shiftr_div_pow2 by lia.
  change (2 ^ 14) with 16384. change (2 ^ 3) with 8.
  Z.div_mod_to_equations. lia.
Qed.

Lemma packet_addr_packet a d :
  0 <= a < 64 -> 0 <= d < 256 -> packet_addr (packet a d) = a.
Proof.
  intros Ha Hd. unfold packet_addr. rewrite Z.shiftr_land, packet_sum by done.
  change (Z.shiftr 0x00003F00 8) with (Z.ones 6).
  rewrite Z.land_ones, Z.shiftr_div_pow2 by lia.
  change (2 ^ 8) with 256. change (2 ^ 6) with 64.
  Z.div_mod_to_equations. lia.
Qed.

Lemma packet_byte a d :
  0 <= a < 64 -> 0 <= d < 256 -> Z.land (packet a d) 0xFF = d.
Proof.
  intros Ha Hd. rewrite packet_sum by done.
  change 0xFF with (Z.ones 8). rewrite Z.land_ones by lia.
  change (2 ^ 8) with 256. Z.div_mod_to_equations. lia.
Qed.

Lemma packet_low_bits a d :
  0 <= a < 64 -> 0 <= d < 256 -> Z.land (packet a d) 0x77 = Z.land d 0x77.
Proof.
  intros Ha Hd. change 0x77 with (Z.land 0xFF 0x77).
  by rewrite Z.land_assoc, packet_byte.
Qed.

Lemma packet_range a d :
  0 <= a < 64 -> 0 <= d < 256 -> 0 <= packet a d < 2 ^ 17.
Proof. intros Ha Hd. rewrite packet_sum by done. lia. Qed.

End PacketFacts.

Module PipelineFacts.

#[local] Arguments packet : simpl never.

Lemma filter_all {A} (P : A -> Prop) `{forall x, Decision (P x)} (l : list A) :
  Forall P l -> filter P l = l.
Proof.
  induction 1 as [|x l Hx _ IH]; [done|].
  by rewrite filter_cons_True, IH.
Qed.

(** The sixteen packets of a transmission of sixteen bytes. *)
Lemma transmission_fields ds :
  length ds = 16%nat ->
  Forall (fun d => 0 <= d < 256) ds ->
  length (transmission ds) = 16%nat /\
  Forall (fun w => packet_cmd w = 5) (transmission ds) /\
  Forall (fun w => 0 <= w < 2 ^ 17) (transmission ds) /\
  map packet_addr (transmission ds) = sequence_addrs /\
  masked (transmission ds)
  = map (fun d => Z.land d 0x77) (take 8 ds) ++ drop 8 ds.
Proof.
  intros Hlen Hb.
  do 16 (destruct ds as [|? ds]; [discriminate|]).
  destruct ds; [|discriminate].
  repeat (apply Forall_cons in Hb as [? Hb]).
  unfold transmission. simpl.
  split; [done|]. split; [|split; [|split]].
  - repeat (constructor; [apply PacketFacts.packet_cmd_packet; lia|]).
    constructor.
  - repeat (constructor; [apply PacketFacts.packet_range; lia|]).
    constructor.
  - rewrite !PacketFacts.packet_addr_packet by lia. done.
  - unfold masked. cbn [take drop firstn skipn map app].
    rewrite !PacketFacts.packet_low_bits, !PacketFacts.packet_byte by lia.
    done.
Qed.

(** A ring whose first sixteen slots hold a transmission decodes to its
    bytes, whatever the other sixteen slots hold. *)
Lemma decode_prefix rb db ds :
  length rb = BUFFER_SIZE ->
  length db = 16%nat ->
  length ds = 16%nat ->
  Forall (fun d => 0 <= d < 256) ds ->
  take 16 rb = transmission ds ->
  process_data_buffer rb db
  = (true, map (fun d => Z.land d 0x77) (take 8 ds) ++ drop 8 ds).
Proof.
  intros Hrb Hdb Hds Hb Htake.
  destruct (transmission_fields ds Hds Hb) as (_ & Hcmd & _ & Hadr & Hmask).
  rewrite <- Hmask.
  apply (ScanMore.process_sequence rb db [] (transmission ds)
           (write_words (drop 16 rb))); try done.
  rewrite <- (take_drop 16 rb) at 1. unfold write_words.
  rewrite filter_app, Htake. by rewrite filter_all.
Qed.

(** Transactions from cursor 0, at most 32 of them, fill the ring from
    slot 0 on. *)
Lemma ring_from_zero s bss :
  length (Sampler.read_buffer s) = BUFFER_SIZE ->
  Sampler.buffer_idx s = 0 ->
  Forall (fun bs => (length bs <= 17)%nat) bss ->
  (length bss <= 32)%nat ->
  exists s',
    Sampler.steps s (transactions bss) = Some s' /\
    length (Sampler.read_buffer s') = BUFFER_SIZE /\
    Sampler.buffer_idx s' = cursor_after 0 (length bss) /\
    take (length bss) (Sampler.read_buffer s')
    = map (Sampler.or_shifted 0) bss.
Proof.
  intros Hlen Hidx Hbss Hn.
  destruct (RingMore.steps_transactions bss s Hlen) as
    (s' & Hs & Hlen' & Hcur & Hnew & _); [lia|done|].
  exists s'. split; [done|]. split; [done|].
  split; [by rewrite Hcur, Hidx|].
  unfold BUFFER_SIZE in *.
  apply (nth_ext _ _ 0 0).
  { rewrite length_take, length_map. lia. }
  intros j Hj. rewrite length_take in Hj.
  rewrite nth_firstn.
  destruct (Nat.ltb_spec j (length bss)); [|lia].
  specialize (Hnew j ltac:(lia) ltac:(lia)).
  rewrite Hidx in Hnew. unfold cursor_after in Hnew.
  change (Z.of_nat BUFFER_SIZE) with 32 in Hnew.
  rewrite Z.add_0_l, Z.mod_small, Nat2Z.id in Hnew by lia.
  rewrite Hnew. symmetry.
  exact (map_nth (Sampler.or_shifted 0) bss [] j).
Qed.

Lemma words_sent ws :
  Forall (fun w => 0 <= w < 2 ^ 17) ws ->
  map (Sampler.or_shifted 0) (map msb_first ws) = ws.
Proof.
  induction 1 as [|w ws Hw _ IH]; [done|].
  cbn [map]. by rewrite SamplerMore.or_shifted_msb_first, IH.
Qed.

Lemma msb_first_lengths ws :
  Forall (fun bs => (length bs <= 17)%nat) (map msb_first ws).
Proof.
  apply Forall_forall. intros bs (w & -> & _)%list_elem_of_fmap.
  unfold msb_first. by rewrite length_map, length_seq.
Qed.

(** One transmission clocked in from cursor 0, then the extraction. *)
Lemma bus_decode s data db :
  length (Sampler.read_buffer s) = BUFFER_SIZE ->
  Sampler.buffer_idx s = 0 ->
  length data = 16%nat ->
  Forall (fun d => 0 <= d < 256) data ->
  length db = 16%nat ->
  exists s',
    Sampler.steps s (sent data) = Some s' /\
    process_data_buffer (Sampler.read_buffer s') db
    = (true, map (fun d => Z.land d 0x77) (take 8 data) ++ drop 8 data).
Proof.
  intros Hlen Hidx Hdata Hb Hdb.
  destruct (transmission_fields data Hdata Hb) as (Hl & _ & Hr & _ & _).
  destruct (ring_from_zero s (map msb_first (transmission data)))
    as (s' & Hs & Hlen' & _ & Htake); try done.
  - apply msb_first_lengths.
  - rewrite length_map, Hl. lia.
  - exists s'. split; [done|].
    apply decode_prefix; try done.
    by rewrite length_map, Hl, words_sent in Htake.
Qed.

(** ** Bytes that show digits *)







End PipelineFacts.

(** X14.  From the bus to the data buffer.  With the cursor at slot 0 and
    whatever the ring holds, after the sixteen write packets of one
    transmission have been clocked in (addresses 0, 2, ..., 30, any data
    bytes), [process_data_buffer] returns true and [data_buffer] holds the
    sixteen bytes, the first eight masked with 0x77. *)
Theorem bus_to_data_buffer (s : Sampler.state) (data db : list Z) :
  length (Sampler.read_buffer s) = BUFFER_SIZE ->
  Sampler.buffer_idx s = 0 ->
  length data = 16%nat ->
  Forall (fun d => 0 <= d < 256) data ->
  length db = 16%nat ->
  exists s',
    Sampler.steps s (sent data) = Some s' /\
    process_data_buffer (Sampler.read_buffer s') db
    = (true, map (fun d => Z.land d 0x77) (take 8 data) ++ drop 8 data).
Proof. apply PipelineFacts.bus_decode. Qed.

Lemma bus_to_data_buffer_witness :
  exists s',
    Sampler.steps Sampler.boot (sent digits_a) = Some s' /\
    process_data_buffer (Sampler.read_buffer s') digits_b = (true, digits_a).
Proof.
  apply (bus_to_data_buffer Sampler.boot digits_a digits_b).
  - reflexivity.
  - reflexivity.
  - reflexivity.
  - unfold digits_a. repeat (constructor; [lia|]). constructor.
  - reflexivity.
Defined.

(** X15.  The scan starts at slot 0, not at the cursor: when two
    transmissions are clocked in from cursor 0 they fill the ring, the
    cursor is back at 0, and [process_data_buffer] returns the bytes of the
    first, older, transmission. *)
Theorem older_transmission_decoded
    (s : Sampler.state) (data1 data2 db : list Z) :
  length (Sampler.read_buffer s) = BUFFER_SIZE ->
  Sampler.buffer_idx s = 0 ->
  length data1 = 16%nat -> Forall (fun d => 0 <= d < 256) data1 ->
  length data2 = 16%nat -> Forall (fun d => 0 <= d < 256) data2 ->
  length db = 16%nat ->
  exists s',
    Sampler.steps s (sent data1 ++ sent data2) = Some s' /\
    Sampler.buffer_idx s' = 0 /\
    Sampler.read_buffer s' = transmission data1 ++ transmission data2 /\
    process_data_buffer (Sampler.read_buffer s') db
    = (true, map (fun d => Z.land d 0x77) (take 8 data1) ++ drop 8 data1).
Proof.
  intros Hlen Hidx Hd1 Hb1 Hd2 Hb2 Hdb.
  destruct (PipelineFacts.transmission_fields data1 Hd1 Hb1)
    as (Hl1 & _ & Hr1 & _ & _).
  destruct (PipelineFacts.transmission_fields data2 Hd2 Hb2)
    as (Hl2 & _ & Hr2 & _ & _).
  assert (sent data1 ++ sent data2
          = transactions
              (map msb_first (transmission data1 ++ transmission data2)))
    as -> by (unfold sent, transactions; by rewrite map_app, flat_map_app).
  destruct (PipelineFacts.ring_from_zero s
              (map msb_first (transmission data1 ++ transmission data2)))
    as (s' & Hs & Hlen' & Hcur & Htake); try done.
  - apply PipelineFacts.msb_first_lengths.
  - rewrite length_map, length_app, Hl1, Hl2. lia.
  - rewrite length_map, length_app, Hl1, Hl2 in Hcur, Htake.
    rewrite PipelineFacts.words_sent in Htake
      by (apply Forall_app; by split).
    rewrite take_ge in Htake by (rewrite Hlen'; unfold BUFFER_SIZE; lia).
    exists s'. split; [done|]. split; [by rewrite Hcur|]. split; [done|].
    apply PipelineFacts.decode_prefix; try done.
    rewrite Htake. by apply take_app_length'.
Qed.

Lemma older_transmission_decoded_witness :
  exists s',
    Sampler.steps Sampler.boot (sent digits_a ++ sent digits_b) = Some s' /\
    Sampler.buffer_idx s' = 0 /\
    Sampler.read_buffer s' = transmission digits_a ++ transmission digits_b /\
    process_data_buffer (Sampler.read_buffer s') data_buffer_init
    = (true, digits_a).
Proof.
  apply (older_transmission_decoded Sampler.boot digits_a digits_b
           data_buffer_init).
  - reflexivity.
  - reflexivity.
  - reflexivity.
  - unfold digits_a. repeat (constructor; [lia|]). constructor.
  - reflexivity.
  - unfold digits_b. repeat (constructor; [lia|]). constructor.
  - reflexivity.
Defined.


